(** * Snake on the console: a shallow embedding of [snake.js]

    The development follows the source file top to bottom: the constants,
    the high-score store ([loadHighScores], [saveHighScore]), the grid
    helpers ([generateFood], [isCollision], [displayGrid]) and the game
    ([playGame] with its interval callback and its keypress handler).

    JavaScript numbers that the program manipulates are small integers
    (grid coordinates, a score counted up from 0), modelled in [Z].  The
    host is explicit: the results of [Math.random ()] form a sequence of
    rationals, the file system is the one high-score file, the console is
    the list of what has been printed. *)

From Stdlib Require Import ZArith QArith Qround List Bool String Ascii Lia.
From Stdlib Require Import DecimalString.
From Stdlib Require Import Permutation Sorted.
Import ListNotations.

Local Open Scope Z_scope.
Local Set Warnings "-register-all".

(* ================================================================== *)
(** ** Constants and the grid *)

Definition GRID_SIZE : Z := 10.

(** A cell [{ row, col }]. *)
Record Cell : Set := mkCell { row : Z; col : Z }.

Definition INITIAL_SNAKE : list Cell := [ mkCell 5 5 ].

Inductive Direction : Set := up | down | left | right.

(** The table [DIRECTIONS]: one unit delta per direction. *)
Definition DIRECTIONS (d : Direction) : Cell :=
  match d with
  | up => mkCell (-1) 0
  | down => mkCell 1 0
  | left => mkCell 0 (-1)
  | right => mkCell 0 1
  end.

(** The callback [segment => segment.row === pos.row && segment.col === pos.col]. *)
Definition same_cell (pos segment : Cell) : bool :=
  (row segment =? row pos) && (col segment =? col pos).

(** [snake.some(segment => ...)]. *)
Definition some_segment (snake : list Cell) (pos : Cell) : bool :=
  existsb (same_cell pos) snake.

(* ================================================================== *)
(** ** Random food *)

(** The successive results of [Math.random ()], each of them in [0, 1). *)
Definition RandomSource : Type := nat -> Q.

Definition in_unit_interval (random : RandomSource) : Prop :=
  forall i : nat, (0 <= random i)%Q /\ (random i < 1)%Q.

(** [Math.floor(Math.random() * GRID_SIZE)] on the [i]-th random number. *)
Definition random_index (random : RandomSource) (i : nat) : Z :=
  Qfloor (random i * inject_Z GRID_SIZE).

(** The object literal of [generateFood]: the row is drawn first. *)
Definition sample (random : RandomSource) (calls : nat) : Cell :=
  mkCell (random_index random calls) (random_index random (S calls)).

(** [generateFood (snake)].  The [do ... while] loop draws a cell and
    repeats while the cell lies on the snake.  [fuel] bounds the number of
    iterations, [calls] counts the calls of [Math.random] made so far; the
    result is the food with the new count, or [None] when the loop is
    still running after [fuel] iterations. *)
Fixpoint generateFood (random : RandomSource) (fuel calls : nat)
    (snake : list Cell) : option (Cell * nat) :=
  match fuel with
  | O => None
  | S fuel' =>
      let food := sample random calls in
      if some_segment snake food
      then generateFood random fuel' (2 + calls) snake
      else Some (food, (2 + calls)%nat)
  end.

(** [isCollision (pos, snake)]. *)
Definition isCollision (pos : Cell) (snake : list Cell) : bool :=
  (row pos <? 0) || (row pos >=? GRID_SIZE) ||
  (col pos <? 0) || (col pos >=? GRID_SIZE) ||
  some_segment snake pos.

(* ================================================================== *)
(** ** Values, exceptions and the host *)

(** What [JSON.parse] can return.  Numbers are integers: the only numbers
    the program itself writes are scores. *)
Inductive JSON : Type :=
  | JNull
  | JBool (b : bool)
  | JNumber (n : Z)
  | JString (s : string)
  | JArray (items : list JSON)
  | JObject (members : list (string * JSON)).

Inductive JSError : Set :=
  | TypeError
  | SyntaxError
  | ENOENT.

(** How an evaluation ends: with a value (a fulfilled promise for an
    [async] function), with an exception (a rejected promise), or in a way
    this model does not determine (see [sort_by_score]). *)
Inductive Outcome (A : Type) : Type :=
  | Returns (a : A)
  | Throws (e : JSError)
  | Unspecified.

Arguments Returns {A} a.
Arguments Throws {A} e.
Arguments Unspecified {A}.

Definition bind {A B : Type} (m : Outcome A) (k : A -> Outcome B) : Outcome B :=
  match m with
  | Returns a => k a
  | Throws e => Throws e
  | Unspecified => Unspecified
  end.

Notation "x <- m ;; k" := (bind m (fun x => k))
  (at level 61, m at next level, right associativity).

(** [try { body } catch { handler }]. *)
Definition try_catch {A : Type} (body handler : Outcome A) : Outcome A :=
  match body with
  | Throws _ => handler
  | _ => body
  end.

(** The file [HIGHSCORE_FILE]: absent, or holding some text. *)
Definition FileSystem : Set := option string.

(** The built-ins and the outside world the program talks to. *)
Record Host : Type := mkHost {
  JSON_parse : string -> option JSON;      (* [None]: a [SyntaxError] *)
  JSON_stringify : JSON -> string;         (* [JSON.stringify (v, null, 2)] *)
  Math_random : RandomSource;
  prompt_answer : string;                  (* the name the prompt resolves with *)
  Date_toISOString : string                (* [new Date().toISOString()] *)
}.

Definition fs_readFile (fs : FileSystem) : Outcome string :=
  match fs with
  | Some data => Returns data
  | None => Throws ENOENT
  end.

Definition parse (host : Host) (data : string) : Outcome JSON :=
  match JSON_parse host data with
  | Some v => Returns v
  | None => Throws SyntaxError
  end.

(* ================================================================== *)
(** ** The high-score store *)

(** [loadHighScores ()]. *)
Definition loadHighScores (host : Host) (fs : FileSystem) : Outcome JSON :=
  try_catch
    (data <- fs_readFile fs ;;
     parse host data)
    (Returns (JArray [])).

(** An entry [{ name, score, date }]. *)
Record HighScoreEntry : Set := mkEntry {
  name : string;
  score : Z;
  date : string
}.

Definition entry_to_json (e : HighScoreEntry) : JSON :=
  JObject [ ("name", JString (name e));
            ("score", JNumber (score e));
            ("date", JString (date e)) ]%string.

Fixpoint member (key : string) (members : list (string * JSON)) : option JSON :=
  match members with
  | [] => None
  | (k, v) :: rest =>
      match member key rest with
      | Some later => Some later          (* a repeated key: the last one wins *)
      | None => if String.eqb k key then Some v else None
      end
  end.

(** [v.score] when it is the number of an object. *)
Definition score_member (v : JSON) : option Z :=
  match v with
  | JObject members =>
      match member "score" members with
      | Some (JNumber n) => Some n
      | _ => None
      end
  | _ => None
  end.

Definition score_key (v : JSON) : Z :=
  match score_member v with
  | Some n => n
  | None => 0
  end.

Definition has_score (v : JSON) : bool :=
  match score_member v with
  | Some _ => true
  | None => false
  end.

Section Sort.

Context {A : Type} (key : A -> Z).

(** [compareFn (a, b) = b.score - a.score]: negative when [a] goes first. *)
Definition compareFn (a b : A) : Z := key b - key a.

(** [Array.prototype.sort] is stable; on a comparator that orders by a
    key this fixes its result, which is the one of a stable insertion
    sort: an element goes before the first element it does not follow. *)
Fixpoint sort_insert (x : A) (sorted : list A) : list A :=
  match sorted with
  | [] => [x]
  | y :: rest =>
      if compareFn x y <=? 0
      then x :: y :: rest
      else y :: sort_insert x rest
  end.

Fixpoint Array_sort (l : list A) : list A :=
  match l with
  | [] => []
  | x :: rest => sort_insert x (Array_sort rest)
  end.

(** Lines 33 to 35 of [saveHighScore] on an array:
    [push (entry)], [sort (compareFn)], [splice (5)]. *)
Definition push_sort_splice (highScores : list A) (entry : A) : list A :=
  firstn 5 (Array_sort (highScores ++ [entry])).

(** Descending by key: every element is at least every later one. *)
Definition descending (l : list A) : Prop :=
  StronglySorted (fun a b => key b <= key a) l.

End Sort.

(** [highScores.push (...)]: only arrays have the method. *)
Definition Array_push (highScores : JSON) (entry : JSON) : Outcome (list JSON) :=
  match highScores with
  | JArray items => Returns (items ++ [entry])
  | _ => Throws TypeError
  end.

(** [highScores.sort ((a, b) => b.score - a.score)] on an array whose
    elements are objects with a number as [score], as [saveHighScore]
    writes them.  On any other element the comparator coerces its
    operand, yields [NaN] (the order is then left to the implementation)
    or throws; the model does not follow it there. *)
Definition sort_by_score (items : list JSON) : Outcome (list JSON) :=
  if forallb has_score items
  then Returns (Array_sort score_key items)
  else Unspecified.

(** [saveHighScore (score, name)]: the file system it leaves. *)
Definition saveHighScore (host : Host) (fs : FileSystem)
    (final_score : Z) (player : string) : Outcome FileSystem :=
  highScores <- loadHighScores host fs ;;
  pushed <- Array_push highScores
              (entry_to_json (mkEntry player final_score (Date_toISOString host))) ;;
  sorted <- sort_by_score pushed ;;
  Returns (Some (JSON_stringify host (JArray (firstn 5 sorted)))).

(** [resetHighScores ()]. *)
Definition resetHighScores (host : Host) (fs : FileSystem) : FileSystem :=
  Some (JSON_stringify host (JArray [])).

(* ================================================================== *)
(** ** The console *)

Inductive Glyph : Set :=
  | HeadGlyph      (* the snake's head *)
  | BodyGlyph      (* another segment of the snake *)
  | FoodGlyph
  | Blank.

Inductive ConsoleLine : Set :=
  | Clear                          (* [console.clear ()] *)
  | GridRow (cells : list Glyph)
  | ScoreLine (shown : Z)          (* [Score: ${snake.length - 1}] *)
  | Welcome
  | Instructions
  | GameOverLine (final : Z).      (* [Game over! Your score: ${score}] *)

(** The indices [0, 1, ..., GRID_SIZE - 1] of the two [for] loops. *)
Definition indices : list Z := map Z.of_nat (seq 0 (Z.to_nat GRID_SIZE)).

Definition glyph_at (head : Cell) (snake : list Cell) (food : Cell) (r c : Z) : Glyph :=
  if (row head =? r) && (col head =? c) then HeadGlyph
  else if some_segment snake (mkCell r c) then BodyGlyph
  else if (row food =? r) && (col food =? c) then FoodGlyph
  else Blank.

(** [displayGrid (snake, food)]: the lines printed.  Reading [snake[0].row]
    of an empty array throws, after the screen has been cleared. *)
Definition displayGrid (snake : list Cell) (food : Cell) : list ConsoleLine * option JSError :=
  match snake with
  | [] => ([Clear], Some TypeError)
  | head :: _ =>
      (Clear
         :: map (fun r => GridRow (map (glyph_at head snake food r) indices)) indices
         ++ [ScoreLine (Z.of_nat (List.length snake) - 1)],
       None)
  end.

(* ================================================================== *)
(** ** The game *)

(** The variables of [playGame] together with what the process has done
    to the outside. *)
Record World : Type := mkWorld {
  snake : list Cell;
  direction : Direction;
  lastDirection : Direction;
  food : Cell;
  points : Z;                    (* the variable [score] *)
  random_calls : nat;            (* calls of [Math.random] so far *)
  gameLoop : bool;               (* the interval is still set *)
  rawMode : bool;
  console : list ConsoleLine;    (* oldest line first *)
  files : FileSystem;            (* the file system the process found *)
  saved : option (Outcome FileSystem);
                                 (* how the call of [saveHighScore] ended *)
  uncaught : option JSError;     (* an exception thrown out of a callback *)
  exited : bool;                 (* [process.exit ()] was called *)
  prompting : bool               (* the callback is suspended at the prompt *)
}.

(** [playGame ()] up to the point where the interval and the listener are
    installed. *)
Definition playGame (host : Host) (fuel : nat) (fs : FileSystem) : option World :=
  let snake0 := INITIAL_SNAKE in
  let direction0 := right in
  match generateFood (Math_random host) fuel 0 snake0 with
  | None => None
  | Some (food0, calls) =>
      Some (mkWorld snake0 direction0 direction0 food0 0 calls
              true true [Welcome; Instructions] fs None None false false)
  end.

(** The head the callback computes: a copy of [snake[0]] moved by the
    delta of the current direction. *)
Definition next_head (head : Cell) (d : Direction) : Cell :=
  mkCell (row head + row (DIRECTIONS d)) (col head + col (DIRECTIONS d)).

(** The branch of the callback taken on a collision, up to its first
    [await]: the interval is cleared, the score is printed and the prompt
    is opened.  The callback is suspended there; the host is consulted
    only when the prompt is answered ([prompt_answered] below), and until
    then the keypress listener goes on receiving the keys typed. *)
Definition game_over (host : Host) (w : World) : World :=
  mkWorld (snake w) (direction w) (lastDirection w) (food w) (points w)
    (random_calls w)
    false                                         (* clearInterval (gameLoop) *)
    false                                         (* setRawMode (false) *)
    (console w ++ [GameOverLine (points w)])
    (files w) (saved w) (uncaught w) (exited w)
    true.                                         (* await inquirer.prompt (...) *)

(** [displayGrid (snake, food)] at the end of the callback. *)
Definition redraw (w : World) : World :=
  let (lines, thrown) := displayGrid (snake w) (food w) in
  mkWorld (snake w) (direction w) (lastDirection w) (food w) (points w)
    (random_calls w) (gameLoop w) (rawMode w)
    (console w ++ lines) (files w) (saved w)
    (match thrown with Some e => Some e | None => uncaught w end)
    (exited w) (prompting w).

(** The snake, food, score and random count replaced. *)
Definition moved (w : World) (snake' : list Cell) (food' : Cell) (points' : Z)
    (calls' : nat) : World :=
  mkWorld snake' (direction w) (lastDirection w) food' points' calls'
    (gameLoop w) (rawMode w) (console w) (files w) (saved w)
    (uncaught w) (exited w) (prompting w).

(** [snake.pop ()]. *)
Definition pop (snake : list Cell) : list Cell := removelast snake.

(** One run of the interval callback, up to its first [await].  The
    callback awaits the prompt and the save, so it is read as an [async]
    function; written as it is, without the keyword, Node refuses the
    file with a [SyntaxError] before any of it runs.  [None]:
    [generateFood] has not returned within [fuel] iterations.

    On an empty snake (which the game never reaches) [{ ...snake[0] }] has
    no coordinates, the head is [NaN, NaN], nothing collides, the head is
    pushed and popped again, and [displayGrid] throws. *)
Definition tick (host : Host) (fuel : nat) (w : World) : option World :=
  match snake w with
  | [] => Some (redraw w)
  | head0 :: body =>
      let head := next_head head0 (direction w) in
      if isCollision head body                       (* snake.slice (1) *)
      then Some (game_over host w)
      else
        let grown := head :: snake w in              (* snake.unshift (head) *)
        if (row head =? row (food w)) && (col head =? col (food w))
        then
          match generateFood (Math_random host) fuel (random_calls w) grown with
          | None => None
          | Some (food', calls') =>
              Some (redraw (moved w grown food' (points w + 1) calls'))
          end
        else Some (redraw (moved w (pop grown) (food w) (points w) (random_calls w)))
  end.

(* ================================================================== *)
(** ** The keypress listener *)

(** A keypress event [(str, key)]: the character typed and [key.name],
    either of which may be undefined. *)
Record Key : Set := mkKey { str : option string; key_name : option string }.

(** [x === 'literal'] for a value that may be undefined. *)
Definition is_literal (x : option string) (literal : string) : bool :=
  match x with
  | Some s => String.eqb s literal
  | None => false
  end.

(** The chain of conditionals that computes [newDirection]. *)
Definition newDirection (k : Key) : option Direction :=
  if is_literal (key_name k) "up" || is_literal (str k) "w" then Some up
  else if is_literal (key_name k) "down" || is_literal (str k) "s" then Some down
  else if is_literal (key_name k) "left" || is_literal (str k) "a" then Some left
  else if is_literal (key_name k) "right" || is_literal (str k) "d" then Some right
  else None.

(** [isOppositeDirection (dir1, dir2)]. *)
Definition isOppositeDirection (dir1 dir2 : Direction) : bool :=
  match dir1, dir2 with
  | up, down => true
  | down, up => true
  | left, right => true
  | right, left => true
  | _, _ => false
  end.

(** [if (newDirection && !isOppositeDirection (newDirection, lastDirection))]
    with its two assignments. *)
Definition turn (w : World) (requested : option Direction) : World :=
  match requested with
  | Some d =>
      if negb (isOppositeDirection d (lastDirection w))
      then mkWorld (snake w) d d (food w) (points w) (random_calls w)
             (gameLoop w) (rawMode w) (console w) (files w) (saved w)
             (uncaught w) (exited w) (prompting w)
      else w
  | None => w
  end.

(** The branch for [q]: the interval is cleared and the process exits. *)
Definition quit (w : World) : World :=
  mkWorld (snake w) (direction w) (lastDirection w) (food w) (points w)
    (random_calls w) false false (console w) (files w) (saved w)
    (uncaught w) true (prompting w).

Definition keypress (w : World) (k : Key) : World :=
  if is_literal (key_name k) "q" then quit w
  else turn w (newDirection k).

(** The value of [lastDirection] after the listener, as a function of the
    direction asked for and of the value before. *)
Definition acceptDirection (requested lastAccepted : Direction) : Direction :=
  if negb (isOppositeDirection requested lastAccepted)
  then requested
  else lastAccepted.

Definition opposite (d : Direction) : Direction :=
  match d with
  | up => down
  | down => up
  | left => right
  | right => left
  end.

(* ================================================================== *)
(** ** The event loop *)

Inductive Event : Set :=
  | Tick                     (* the 500 ms interval fires *)
  | Keypress (k : Key)       (* a key is typed, during the game or at the prompt *)
  | Answered.                (* the prompt is submitted *)

(** A letter [q], small or capital: the keys for which [key.name] is
    ['q']. *)
Definition is_q (c : ascii) : bool :=
  Ascii.eqb c "q"%char || Ascii.eqb c "Q"%char.

Fixpoint mentions_q (name : string) : bool :=
  match name with
  | EmptyString => false
  | String c rest => is_q c || mentions_q rest
  end.

(** The callback resumed when the prompt is answered with
    [prompt_answer host]: [await saveHighScore (score, name)].  A
    rejection of that promise leaves the callback and is caught by
    nobody.

    The default answer, ['Player'], is submitted without a key; every
    other answer has been typed, key by key, through the listener that
    [playGame] installed.  An answer with the letter [q] in it is
    therefore never submitted: the listener has ended the process at that
    key. *)
Definition prompt_answered (host : Host) (w : World) : World :=
  if mentions_q (prompt_answer host) then quit w
  else
    let outcome := saveHighScore host (files w) (points w) (prompt_answer host) in
    mkWorld (snake w) (direction w) (lastDirection w) (food w) (points w)
      (random_calls w) (gameLoop w) (rawMode w) (console w) (files w)
      (Some outcome)
      (match outcome with Throws e => Some e | _ => uncaught w end)
      (exited w) false.

(** Nothing runs any more: the process has exited, an exception escaped,
    or [saveHighScore] has been called (the prompt has closed its input by
    then, and no handle keeps the process alive after the save). *)
Definition halted (w : World) : bool :=
  exited w
  || match uncaught w with Some _ => true | None => false end
  || match saved w with Some _ => true | None => false end.

Definition dispatch (host : Host) (fuel : nat) (w : World) (ev : Event) : option World :=
  if halted w then Some w
  else
    match ev with
    | Tick => if gameLoop w then tick host fuel w else Some w
    | Keypress k => Some (keypress w k)
    | Answered => if prompting w then Some (prompt_answered host w) else Some w
    end.

Fixpoint run (host : Host) (fuel : nat) (w : World) (events : list Event) : option World :=
  match events with
  | [] => Some w
  | ev :: later =>
      match dispatch host fuel w ev with
      | Some w' => run host fuel w' later
      | None => None
      end
  end.

(** The worlds a game goes through. *)
Inductive reachable (host : Host) : World -> Prop :=
  | reach_start : forall fuel fs w,
      playGame host fuel fs = Some w -> reachable host w
  | reach_event : forall fuel w ev w',
      reachable host w -> dispatch host fuel w ev = Some w' -> reachable host w'.

(* ================================================================== *)
(** ** Predicates used in the statements *)

(** Cells of the grid, and cells free of the snake. *)
Definition in_grid (c : Cell) : Prop :=
  0 <= row c < GRID_SIZE /\ 0 <= col c < GRID_SIZE.

Definition grid_cells : list Cell :=
  flat_map (fun r => map (mkCell r) indices) indices.

Definition free_cell (snake : list Cell) (c : Cell) : Prop :=
  in_grid c /\ ~ In c snake.

(** From the [calls]-th random number on, every cell of the grid is drawn
    at some iteration of the loop. *)
Definition draws_every_cell (random : RandomSource) (calls : nat) : Prop :=
  forall c : Cell, in_grid c ->
    exists k : nat, sample random (2 * k + calls) = c.

(** No cell occurs twice. *)
Fixpoint all_distinct (l : list Cell) : bool :=
  match l with
  | [] => true
  | c :: rest => negb (some_segment rest c) && all_distinct rest
  end.

(** The snake is not empty, the score is its length minus one and the
    food is not on it. *)
Definition game_invariant (w : World) : Prop :=
  snake w <> []
  /\ points w = Z.of_nat (List.length (snake w)) - 1
  /\ ~ In (food w) (snake w).

(** No two segments share a cell, and every segment is on the grid. *)
Definition snake_shape (w : World) : Prop :=
  NoDup (snake w) /\ Forall in_grid (snake w).

(* ================================================================== *)
(** ** A reference host

    A host to run the program on.  Its parser and printer cover the part
    of JSON the program writes:
    [null], booleans, integers, strings with the short escapes, arrays and
    objects.  Numbers with a fraction or an exponent and [\u] escapes are
    outside it and are refused. *)

Module Reference.

Local Open Scope string_scope.

Definition quote : ascii := ascii_of_nat 34.
Definition backslash : ascii := ascii_of_nat 92.
Definition newline : ascii := ascii_of_nat 10.

Definition code (c : ascii) : nat := nat_of_ascii c.

Definition is_space (c : ascii) : bool :=
  let n := code c in
  (n =? 32)%nat || (n =? 9)%nat || (n =? 10)%nat || (n =? 13)%nat.

Definition is_digit (c : ascii) : bool :=
  let n := code c in (48 <=? n)%nat && (n <=? 57)%nat.

Fixpoint skip_space (s : string) : string :=
  match s with
  | String c rest => if is_space c then skip_space rest else s
  | EmptyString => s
  end.

(** The digits at the front of [s], read in base ten after [acc]. *)
Fixpoint read_digits (acc : Z) (s : string) : Z * string :=
  match s with
  | String c rest =>
      if is_digit c
      then read_digits (10 * acc + Z.of_nat (code c - 48)) rest
      else (acc, s)
  | EmptyString => (acc, s)
  end.

Definition starts_fraction (s : string) : bool :=
  match s with
  | String c _ => Ascii.eqb c "." || Ascii.eqb c "e" || Ascii.eqb c "E"
  | EmptyString => false
  end.

(** An integer without sign: [0], or a digit other than [0] followed by
    digits. *)
Definition read_natural (s : string) : option (Z * string) :=
  match s with
  | String c rest =>
      if Ascii.eqb c "0" then
        if starts_fraction rest then None else Some (0, rest)
      else if is_digit c then
        let (n, rest') := read_digits 0 s in
        if starts_fraction rest' then None else Some (n, rest')
      else None
  | EmptyString => None
  end.

Definition unescape (c : ascii) : option ascii :=
  if Ascii.eqb c quote then Some quote
  else if Ascii.eqb c backslash then Some backslash
  else if Ascii.eqb c "/" then Some "/"%char
  else if Ascii.eqb c "n" then Some newline
  else if Ascii.eqb c "t" then Some (ascii_of_nat 9)
  else if Ascii.eqb c "r" then Some (ascii_of_nat 13)
  else if Ascii.eqb c "b" then Some (ascii_of_nat 8)
  else if Ascii.eqb c "f" then Some (ascii_of_nat 12)
  else None.

Definition cons_char (c : ascii) (r : option (string * string)) : option (string * string) :=
  match r with
  | Some (text, rest) => Some (String c text, rest)
  | None => None
  end.

(** The characters of a string literal, after its opening quote. *)
Fixpoint read_chars (s : string) : option (string * string) :=
  match s with
  | EmptyString => None
  | String c rest =>
      if Ascii.eqb c quote then Some (EmptyString, rest)
      else if Ascii.eqb c backslash then
        match rest with
        | String e rest' =>
            match unescape e with
            | Some c' => cons_char c' (read_chars rest')
            | None => None
            end
        | EmptyString => None
        end
      else if (code c <? 32)%nat then None
      else cons_char c (read_chars rest)
  end.

Fixpoint literal (word s : string) : option string :=
  match word, s with
  | EmptyString, _ => Some s
  | String a word', String c rest => if Ascii.eqb a c then literal word' rest else None
  | String _ _, EmptyString => None
  end.

Fixpoint read_value (fuel : nat) (s : string) : option (JSON * string) :=
  match fuel with
  | O => None
  | S fuel' =>
      match skip_space s with
      | EmptyString => None
      | String c rest =>
          if Ascii.eqb c quote then
            match read_chars rest with
            | Some (text, rest') => Some (JString text, rest')
            | None => None
            end
          else if Ascii.eqb c "[" then
            match skip_space rest with
            | String "]" rest' => Some (JArray [], rest')
            | _ =>
                match read_value fuel' rest with
                | Some (v, rest') =>
                    match read_items fuel' rest' with
                    | Some (vs, rest'') => Some (JArray (v :: vs), rest'')
                    | None => None
                    end
                | None => None
                end
            end
          else if Ascii.eqb c "{" then
            match skip_space rest with
            | String "}" rest' => Some (JObject [], rest')
            | _ =>
                match read_member fuel' rest with
                | Some (m, rest') =>
                    match read_members fuel' rest' with
                    | Some (ms, rest'') => Some (JObject (m :: ms), rest'')
                    | None => None
                    end
                | None => None
                end
            end
          else if Ascii.eqb c "-" then
            match read_natural rest with
            | Some (n, rest') => Some (JNumber (- n), rest')
            | None => None
            end
          else if is_digit c then
            match read_natural (String c rest) with
            | Some (n, rest') => Some (JNumber n, rest')
            | None => None
            end
          else if Ascii.eqb c "n" then
            option_map (pair JNull) (literal "ull" rest)
          else if Ascii.eqb c "t" then
            option_map (pair (JBool true)) (literal "rue" rest)
          else if Ascii.eqb c "f" then
            option_map (pair (JBool false)) (literal "alse" rest)
          else None
      end
  end

(** After an element of an array: a comma and more, or the end. *)
with read_items (fuel : nat) (s : string) : option (list JSON * string) :=
  match fuel with
  | O => None
  | S fuel' =>
      match skip_space s with
      | String "]" rest => Some ([], rest)
      | String "," rest =>
          match read_value fuel' rest with
          | Some (v, rest') =>
              match read_items fuel' rest' with
              | Some (vs, rest'') => Some (v :: vs, rest'')
              | None => None
              end
          | None => None
          end
      | _ => None
      end
  end

(** A member ["key": value]. *)
with read_member (fuel : nat) (s : string) : option ((string * JSON) * string) :=
  match fuel with
  | O => None
  | S fuel' =>
      match skip_space s with
      | String c rest =>
          if Ascii.eqb c quote then
            match read_chars rest with
            | Some (key, rest') =>
                match skip_space rest' with
                | String ":" rest'' =>
                    match read_value fuel' rest'' with
                    | Some (v, rest3) => Some ((key, v), rest3)
                    | None => None
                    end
                | _ => None
                end
            | None => None
            end
          else None
      | EmptyString => None
      end
  end

with read_members (fuel : nat) (s : string) : option (list (string * JSON) * string) :=
  match fuel with
  | O => None
  | S fuel' =>
      match skip_space s with
      | String "}" rest => Some ([], rest)
      | String "," rest =>
          match read_member fuel' rest with
          | Some (m, rest') =>
              match read_members fuel' rest' with
              | Some (ms, rest'') => Some (m :: ms, rest'')
              | None => None
              end
          | None => None
          end
      | _ => None
      end
  end.

(** [JSON.parse (data)]: one value, and nothing but space after it. *)
Definition JSON_parse (data : string) : option JSON :=
  match read_value (2 * String.length data + 2) data with
  | Some (v, rest) =>
      match skip_space rest with
      | EmptyString => Some v
      | String _ _ => None
      end
  | None => None
  end.

(** Printing. *)
Definition escape (c : ascii) : string :=
  if Ascii.eqb c quote then String backslash (String quote "")
  else if Ascii.eqb c backslash then String backslash (String backslash "")
  else if Ascii.eqb c newline then String backslash "n"
  else if Ascii.eqb c (ascii_of_nat 9) then String backslash "t"
  else if Ascii.eqb c (ascii_of_nat 13) then String backslash "r"
  else if Ascii.eqb c (ascii_of_nat 8) then String backslash "b"
  else if Ascii.eqb c (ascii_of_nat 12) then String backslash "f"
  else String c "".

Fixpoint escape_all (s : string) : string :=
  match s with
  | EmptyString => ""
  | String c rest => escape c ++ escape_all rest
  end.

Definition quoted (s : string) : string :=
  String quote (escape_all s ++ String quote "").

Definition decimal (n : Z) : string := NilZero.string_of_int (Z.to_int n).

Definition line_break : string := String newline "".

(** [JSON.stringify (v, null, 2)] at the indentation [indent]. *)
Fixpoint print (indent : string) (v : JSON) : string :=
  match v with
  | JNull => "null"
  | JBool true => "true"
  | JBool false => "false"
  | JNumber n => decimal n
  | JString s => quoted s
  | JArray [] => "[]"
  | JArray items =>
      let inner := indent ++ "  " in
      let fix lines (l : list JSON) : string :=
        match l with
        | [] => ""
        | [x] => inner ++ print inner x
        | x :: l' => inner ++ print inner x ++ "," ++ line_break ++ lines l'
        end in
      "[" ++ line_break ++ lines items ++ line_break ++ indent ++ "]"
  | JObject [] => "{}"
  | JObject members =>
      let inner := indent ++ "  " in
      let fix lines (l : list (string * JSON)) : string :=
        match l with
        | [] => ""
        | [(k, x)] => inner ++ quoted k ++ ": " ++ print inner x
        | (k, x) :: l' =>
            inner ++ quoted k ++ ": " ++ print inner x ++ "," ++ line_break ++ lines l'
        end in
      "{" ++ line_break ++ lines members ++ line_break ++ indent ++ "}"
  end.

Definition JSON_stringify (v : JSON) : string := print "" v.

End Reference.

(** Random numbers whose draws go through the grid row by row: the
    [k]-th draw of a cell is [(k / 10 mod 10, k mod 10)], each index [d]
    coming from the random number [d / 10 + 1 / 20]. *)
Definition reference_random : RandomSource :=
  fun i =>
    let k := Nat.div2 i in
    let d := if Nat.even i then ((k / 10) mod 10)%nat else (k mod 10)%nat in
    (Z.of_nat (2 * d + 1) # 20)%Q.

Definition reference_host : Host :=
  mkHost Reference.JSON_parse Reference.JSON_stringify reference_random
    "Player" "2024-01-01T00:00:00.000Z".

(* ================================================================== *)
(** ** Counting draws *)

(** Random numbers that make the loop of [generateFood] draw the cells of
    [draws] one after the other: the index [d] comes from the random
    number [d / 10 + 1 / 20]. *)
Definition random_of_draws (draws : list Cell) : RandomSource :=
  fun i =>
    let c := nth (Nat.div2 i) draws (mkCell 0 0) in
    let d := if Nat.even i then row c else col c in
    (2 * d + 1 # 20)%Q.

(** All the sequences of [k] draws of a cell of the grid. *)
Fixpoint sequences (k : nat) : list (list Cell) :=
  match k with
  | O => [[]]
  | S k' => flat_map (fun c => map (cons c) (sequences k')) grid_cells
  end.

(** The loop has not returned after [k] iterations. *)
Definition still_running (random : RandomSource) (k calls : nat)
    (snake : list Cell) : bool :=
  match generateFood random k calls snake with
  | None => true
  | Some _ => false
  end.

(** The number of cells of the grid that lie on the snake. *)
Definition occupied_cells (snake : list Cell) : nat :=
  List.length (filter (some_segment snake) grid_cells).

(* ================================================================== *)
(** ** Worlds and files to run the program on *)

(** A snake curled up in a square, about to bite its tail at (1, 0), with
    the food lying on that very cell. *)
Definition curled_world : World :=
  mkWorld [mkCell 0 0; mkCell 0 1; mkCell 1 1; mkCell 1 0] down down
    (mkCell 1 0) 3 8 true true [] None None None false false.

(** The initial snake with the food right in front of it. *)
Definition feeding_world : World :=
  mkWorld [mkCell 5 5] right right (mkCell 5 6) 0 2 true true [] None None None false false.

(** The snake in the top left corner, heading up. *)
Definition corner_world : World :=
  mkWorld [mkCell 0 0] up up (mkCell 3 3) 0 2 true true [] None None None false false.

(** The same game lost, with the prompt open, on a high-score file that
    holds an object. *)
Definition spoiled_world : World :=
  mkWorld [mkCell 0 0] up up (mkCell 3 3) 0 2 false false [GameOverLine 0]
    (Some "{}"%string) None None false true.

(** The game the reference host starts, and keys that steer the snake up
    and then left until it eats the food at (0, 0). *)
Definition started_world : World :=
  mkWorld INITIAL_SNAKE right right (mkCell 0 0) 0 2 true true
    [Welcome; Instructions] None None None false false.

Definition arrow_up : Key := mkKey None (Some "up"%string).
Definition letter_a : Key := mkKey (Some "a"%string) (Some "a"%string).
Definition letter_w : Key := mkKey (Some "w"%string) (Some "w"%string).

Definition to_the_food : list Event :=
  [Keypress arrow_up; Tick; Tick; Tick; Tick; Tick;
   Keypress letter_a; Tick; Tick; Tick; Tick; Tick].

(** A file somebody edited by hand: six entries, in no order. *)
Definition crowded_table : list JSON :=
  map entry_to_json
    [ mkEntry "Ann" 1 "2024-01-01T00:00:00.000Z";
      mkEntry "Bob" 5 "2024-01-02T00:00:00.000Z";
      mkEntry "Cyd" 3 "2024-01-03T00:00:00.000Z";
      mkEntry "Dee" 9 "2024-01-04T00:00:00.000Z";
      mkEntry "Eve" 2 "2024-01-05T00:00:00.000Z";
      mkEntry "Fay" 7 "2024-01-06T00:00:00.000Z" ]%string.

Definition crowded_file : string := Reference.JSON_stringify (JArray crowded_table).

(** One game after the other, each ending with the next of [scores]. *)
Fixpoint save_all (host : Host) (fs : FileSystem) (scores : list Z)
    (player : string) : Outcome FileSystem :=
  match scores with
  | [] => Returns fs
  | final_score :: later =>
      fs' <- saveHighScore host fs final_score player ;;
      save_all host fs' later player
  end.

(** The tables such a row of games goes through, from the table [items]
    the first save loads: the array each save hands to [JSON.stringify]. *)
Fixpoint tables_after (host : Host) (player : string) (items : list JSON)
    (scores : list Z) : list (list JSON) :=
  match scores with
  | [] => []
  | final_score :: later =>
      let table :=
        push_sort_splice score_key items
          (entry_to_json (mkEntry player final_score (Date_toISOString host))) in
      table :: tables_after host player table later
  end.

(* ================================================================== *)
(** ** Showing the high scores *)

(** What [showHighScores] prints.  An entry line keeps the three values
    interpolated into it, each of which may be undefined. *)
Inductive StoreLine : Type :=
  | NoScoresYet                       (* [No high scores yet.] *)
  | ScoresHeader                      (* [High Scores:] *)
  | EntryLine (rank : Z) (entry_name entry_score entry_date : option JSON).
                  (* [${index + 1}. ${entry.name} - ${entry.score} points (${entry.date})] *)

(** [v.key] on a value other than [null]: only an object parsed from JSON
    has members called [name], [score], [date] or [forEach]. *)
Definition property (key : string) (v : JSON) : option JSON :=
  match v with
  | JObject members => member key members
  | _ => None
  end.

(** Whether a value counts as true in a condition. *)
Definition truthy (v : JSON) : bool :=
  match v with
  | JNull => false
  | JBool b => b
  | JNumber n => negb (n =? 0)
  | JString s => negb (String.eqb s "")
  | JArray _ => true
  | JObject _ => true
  end.

(** [!highScores.length].  [None]: reading [length] of [null] throws.
    Arrays and strings have a length of their own; booleans and numbers
    have none; an object has the member called [length], if any. *)
Definition no_length (highScores : JSON) : option bool :=
  match highScores with
  | JNull => None
  | JArray items => Some (match items with [] => true | _ :: _ => false end)
  | JString s => Some (String.eqb s "")
  | JObject members =>
      Some (match member "length" members with
            | Some v => negb (truthy v)
            | None => true
            end)
  | JBool _ => Some true
  | JNumber _ => Some true
  end.

(** Whether a value interpolated into a template literal converts to a
    string.  [null], booleans, numbers and strings do.  An array is
    joined, which converts each of its elements other than [null] in
    turn.  An object parsed from JSON converts through
    [Object.prototype.toString], unless it has a member of its own called
    [toString]: such a member is no function, the inherited [valueOf]
    returns the object itself, and the conversion throws a [TypeError]. *)
Fixpoint converts (v : JSON) : bool :=
  match v with
  | JArray items => forallb converts items
  | JObject members =>
      match member "toString" members with
      | Some _ => false
      | None => true
      end
  | _ => true
  end.

(** [`${x}`] for a value that may be undefined; [undefined] converts. *)
Definition interpolates (x : option JSON) : bool :=
  match x with
  | Some v => converts v
  | None => true
  end.

(** [highScores.forEach ((entry, index) => console.log (...))] from
    [index] on: the lines printed, and the exception that ends the loop.
    Reading [entry.name] throws when [entry] is [null]; building the line
    throws when [entry.name], [entry.score] or [entry.date] does not
    convert to a string.  In both cases nothing is printed for the entry
    and no later entry is visited. *)
Fixpoint forEach_log (index : Z) (items : list JSON) : list StoreLine * option JSError :=
  match items with
  | [] => ([], None)
  | JNull :: _ => ([], Some TypeError)
  | entry :: rest =>
      if interpolates (property "name" entry)
         && interpolates (property "score" entry)
         && interpolates (property "date" entry)
      then
        let (lines, thrown) := forEach_log (index + 1) rest in
        (EntryLine (index + 1)
           (property "name" entry) (property "score" entry) (property "date" entry)
           :: lines,
         thrown)
      else ([], Some TypeError)
  end.

(** The entries for which the callback of [forEach] prints its line. *)
Definition printable (entry : JSON) : bool :=
  match entry with
  | JNull => false
  | _ =>
      interpolates (property "name" entry)
      && interpolates (property "score" entry)
      && interpolates (property "date" entry)
  end.

(** The body of [showHighScores] once the table is loaded.  Only an array
    has [forEach]; calling it on anything else throws after the header
    has been printed. *)
Definition show_table (highScores : JSON) : list StoreLine * option JSError :=
  match no_length highScores with
  | None => ([], Some TypeError)
  | Some true => ([NoScoresYet], None)
  | Some false =>
      match highScores with
      | JArray items =>
          let (lines, thrown) := forEach_log 0 items in
          (ScoresHeader :: lines, thrown)
      | _ => ([ScoresHeader], Some TypeError)
      end
  end.

(** [showHighScores ()]: the lines printed and the exception thrown, if
    any. *)
Definition showHighScores (host : Host) (fs : FileSystem) : list StoreLine * option JSError :=
  match loadHighScores host fs with
  | Returns highScores => show_table highScores
  | Throws e => ([], Some e)
  | Unspecified => ([], None)
  end.

(** The scores shown on the entry lines, top to bottom. *)
Fixpoint shown_scores (lines : list StoreLine) : list (option JSON) :=
  match lines with
  | [] => []
  | EntryLine _ _ entry_score _ :: rest => entry_score :: shown_scores rest
  | _ :: rest => shown_scores rest
  end.

(** The ranks shown on the entry lines, top to bottom. *)
Fixpoint shown_ranks (lines : list StoreLine) : list Z :=
  match lines with
  | [] => []
  | EntryLine rank _ _ _ :: rest => rank :: shown_ranks rest
  | _ :: rest => shown_ranks rest
  end.

(* ================================================================== *)
(** ** Where a new entry lands *)

Section Rank.

Context {A : Type} (key : A -> Z).

(** [x] put behind every leading element whose key is at least its own. *)
Fixpoint insert_behind (x : A) (sorted : list A) : list A :=
  match sorted with
  | [] => [x]
  | y :: rest =>
      if key y <? key x
      then x :: y :: rest
      else y :: insert_behind x rest
  end.

(** The number of elements whose key is at least the key of [x]. *)
Definition not_beaten_by (x : A) (l : list A) : nat :=
  List.length (filter (fun a => key x <=? key a) l).

End Rank.

(* ================================================================== *)
(** ** What is drawn *)

Definition Glyph_eqb (a b : Glyph) : bool :=
  match a, b with
  | HeadGlyph, HeadGlyph => true
  | BodyGlyph, BodyGlyph => true
  | FoodGlyph, FoodGlyph => true
  | Blank, Blank => true
  | _, _ => false
  end.

(** The glyphs of the rows among [lines], row after row. *)
Fixpoint drawn_glyphs (lines : list ConsoleLine) : list Glyph :=
  match lines with
  | [] => []
  | GridRow cells :: rest => cells ++ drawn_glyphs rest
  | _ :: rest => drawn_glyphs rest
  end.

Definition count_glyph (g : Glyph) (lines : list ConsoleLine) : nat :=
  List.length (filter (Glyph_eqb g) (drawn_glyphs lines)).

(* ================================================================== *)
(** ** Room ahead *)

(** How many more cells the head can advance in direction [d] before
    it leaves the grid. *)
Definition to_wall (d : Direction) (head : Cell) : Z :=
  match d with
  | up => row head
  | down => GRID_SIZE - 1 - row head
  | left => col head
  | right => GRID_SIZE - 1 - col head
  end.

(** The same for the head of a snake. *)
Definition head_to_wall (w : World) : Z :=
  match snake w with
  | [] => 0
  | head0 :: _ => to_wall (direction w) head0
  end.

(* ================================================================== *)
(** ** More worlds *)

(** The grid walked row by row, every other row backwards. *)
Definition winding_path : list Cell :=
  flat_map
    (fun r => map (mkCell r) (if Z.even r then indices else rev indices))
    indices.

(** A snake on all cells but the last of the walk, (9, 0), where the food
    lies right in front of its head. *)
Definition crowded_world : World :=
  mkWorld (rev (firstn 99 winding_path)) left left (mkCell 9 0) 98 2
    true true [] None None None false false.

(** A snake of two segments that has just moved right. *)
Definition straight_world : World :=
  mkWorld [mkCell 5 6; mkCell 5 5] right right (mkCell 2 2) 1 4
    true true [] None None None false false.

Definition letter_q : Key := mkKey (Some "q"%string) (Some "q"%string).

(** A table in the order [saveHighScore] leaves it, with its five places
    taken. *)
Definition full_table : list HighScoreEntry :=
  [ mkEntry "Dee" 9 "2024-01-04T00:00:00.000Z";
    mkEntry "Fay" 7 "2024-01-06T00:00:00.000Z";
    mkEntry "Bob" 5 "2024-01-02T00:00:00.000Z";
    mkEntry "Cyd" 3 "2024-01-03T00:00:00.000Z";
    mkEntry "Eve" 2 "2024-01-05T00:00:00.000Z" ]%string.

Definition full_file : string :=
  Reference.JSON_stringify (JArray (map entry_to_json full_table)).

(** The two direction variables agree; the only exception that escapes
    is a rejection of [saveHighScore]; while the interval is set nothing
    has ended and no prompt is open; raw mode is on exactly as long as the
    interval is set; and a process that has exited has saved nothing. *)
Definition process_invariant (w : World) : Prop :=
  direction w = lastDirection w
  /\ (uncaught w = None
      \/ exists e, uncaught w = Some e /\ saved w = Some (Throws e))
  /\ (gameLoop w = true -> halted w = false /\ prompting w = false)
  /\ rawMode w = gameLoop w
  /\ (exited w = true -> saved w = None).

(** A file with a [null] among its elements. *)
Definition holed_table : list JSON :=
  [ entry_to_json (mkEntry "Ann" 4 "2024-01-01T00:00:00.000Z"); JNull; JNumber 3 ]%string.

Definition holed_file : string := Reference.JSON_stringify (JArray holed_table).

(** Case analysis on every comparison of keys in the goal. *)
Ltac compare_keys :=
  repeat match goal with
         | |- context [ (?a <=? ?b) ] => destruct (Z.leb_spec a b)
         | |- context [ (?a <? ?b) ] => destruct (Z.ltb_spec a b)
         end.

(* ================================================================== *)
(** * Properties *)

(** ** Cells and membership *)

Lemma same_cell_spec (pos segment : Cell) :
  same_cell pos segment = true <-> segment = pos.
Proof.
  unfold same_cell. rewrite andb_true_iff, !Z.eqb_eq.
  destruct pos as [r c], segment as [r' c']; simpl.
  split.
  - intros [-> ->]. reflexivity.
  - intros H. injection H as -> ->. split; reflexivity.
Qed.

Lemma some_segment_In (snake : list Cell) (pos : Cell) :
  some_segment snake pos = true <-> In pos snake.
Proof.
  unfold some_segment. rewrite existsb_exists. split.
  - intros [segment [Hin Hsame]]. apply same_cell_spec in Hsame. now subst.
  - intros Hin. exists pos. split; [assumption | now apply same_cell_spec].
Qed.

Lemma some_segment_not_In (snake : list Cell) (pos : Cell) :
  some_segment snake pos = false <-> ~ In pos snake.
Proof.
  rewrite <- some_segment_In. destruct (some_segment snake pos); split; congruence.
Qed.

Lemma head_test_spec (head food : Cell) :
  (row head =? row food) && (col head =? col food) = true <-> head = food.
Proof.
  exact (same_cell_spec food head).
Qed.

Lemma Cell_eq_dec (a b : Cell) : {a = b} + {a <> b}.
Proof.
  decide equality; apply Z.eq_dec.
Defined.

(** ** The random indices stay on the grid *)

Lemma random_index_range (random : RandomSource) (i : nat) :
  in_unit_interval random -> 0 <= random_index random i < GRID_SIZE.
Proof.
  intros Hunit. destruct (Hunit i) as [Hlo Hhi].
  unfold random_index, GRID_SIZE. split.
  - change 0 with (Qfloor (inject_Z 0)) at 1.
    apply Qfloor_resp_le.
    change (inject_Z 0) with (0 * inject_Z 10)%Q.
    apply Qmult_le_compat_r; [assumption | discriminate].
  - apply Z.lt_nge. intros Hge.
    assert (Hfl : (inject_Z 10 <= random i * inject_Z 10)%Q).
    { eapply Qle_trans; [ | apply Qfloor_le ].
      rewrite <- Zle_Qle. exact Hge. }
    assert (Hlt : (random i * inject_Z 10 < 1 * inject_Z 10)%Q).
    { apply Qmult_lt_compat_r; [reflexivity | assumption]. }
    apply (Qlt_irrefl (inject_Z 10)).
    eapply Qle_lt_trans; [exact Hfl | exact Hlt].
Qed.

Lemma sample_in_grid (random : RandomSource) (calls : nat) :
  in_unit_interval random -> in_grid (sample random calls).
Proof.
  intros Hunit. split; simpl; now apply random_index_range.
Qed.

(** ** The grid has [GRID_SIZE * GRID_SIZE] distinct cells *)

Lemma In_indices (z : Z) : In z indices <-> 0 <= z < GRID_SIZE.
Proof.
  unfold indices, GRID_SIZE. rewrite in_map_iff. split.
  - intros [n [<- Hn]]. apply in_seq in Hn. lia.
  - intros Hz. exists (Z.to_nat z). split; [lia | apply in_seq; lia].
Qed.

Lemma In_grid_cells (c : Cell) : In c grid_cells <-> in_grid c.
Proof.
  unfold grid_cells, in_grid. rewrite in_flat_map. split.
  - intros [r [Hr Hc]]. apply in_map_iff in Hc as [k [<- Hk]].
    simpl. now rewrite <- !In_indices.
  - intros [Hr Hc]. exists (row c). split; [now apply In_indices | ].
    apply in_map_iff. exists (col c). split; [now destruct c | now apply In_indices].
Qed.

Lemma all_distinct_NoDup (l : list Cell) : all_distinct l = true -> NoDup l.
Proof.
  induction l as [ | c rest IH]; simpl; intros H.
  - constructor.
  - apply andb_true_iff in H as [Hc Hrest]. constructor.
    + apply some_segment_not_In. now apply negb_true_iff.
    + now apply IH.
Qed.

Lemma grid_cells_NoDup : NoDup grid_cells.
Proof.
  apply all_distinct_NoDup. vm_compute. reflexivity.
Qed.

Lemma grid_cells_length : List.length grid_cells = Z.to_nat (GRID_SIZE * GRID_SIZE).
Proof.
  reflexivity.
Qed.

(** A snake shorter than the number of cells leaves a cell free. *)
Lemma short_snake_leaves_free_cell (snake : list Cell) :
  (List.length snake < Z.to_nat (GRID_SIZE * GRID_SIZE))%nat ->
  exists c : Cell, free_cell snake c.
Proof.
  intros Hshort.
  destruct (filter (fun c => negb (some_segment snake c)) grid_cells)
    as [ | c others] eqn:Hfree.
  - exfalso.
    assert (Hincl : incl grid_cells snake).
    { intros c Hc. destruct (some_segment snake c) eqn:Hocc.
      - now apply some_segment_In.
      - assert (Hin : In c (filter (fun c => negb (some_segment snake c)) grid_cells)).
        { apply filter_In. split; [assumption | now rewrite Hocc]. }
        rewrite Hfree in Hin. destruct Hin. }
    pose proof (NoDup_incl_length grid_cells_NoDup Hincl) as Hlen.
    rewrite grid_cells_length in Hlen. lia.
  - assert (Hin : In c (filter (fun c => negb (some_segment snake c)) grid_cells)).
    { rewrite Hfree. now left. }
    apply filter_In in Hin as [Hgrid Hocc].
    exists c. split.
    + now apply In_grid_cells.
    + apply some_segment_not_In. now apply negb_true_iff.
Qed.

(** ** [generateFood] *)

(** What a returned food is: the first draw that misses the snake. *)
Lemma generateFood_returns (random : RandomSource) (snake : list Cell) :
  forall (fuel calls : nat) (food : Cell) (calls' : nat),
    generateFood random fuel calls snake = Some (food, calls') ->
    exists k : nat,
      (k < fuel)%nat /\
      food = sample random (2 * k + calls) /\
      calls' = (2 * S k + calls)%nat /\
      ~ In food snake /\
      forall j : nat, (j < k)%nat -> In (sample random (2 * j + calls)) snake.
Proof.
  induction fuel as [ | fuel IH]; intros calls food calls' Hgen; simpl in Hgen.
  - discriminate.
  - destruct (some_segment snake (sample random calls)) eqn:Hocc.
    + apply IH in Hgen as [k [Hk [Hfood [Hcalls [Hfree Hbefore]]]]].
      exists (S k). repeat split.
      * lia.
      * rewrite Hfood. f_equal. lia.
      * lia.
      * assumption.
      * intros [ | j] Hj.
        -- apply some_segment_In. exact Hocc.
        -- replace (2 * S j + calls)%nat with (2 * j + (2 + calls))%nat by lia.
           apply Hbefore. lia.
    + injection Hgen as <- <-. exists 0%nat. repeat split.
      * lia.
      * now apply some_segment_not_In.
      * intros j Hj. lia.
Qed.

(** More fuel does not change a result. *)
Lemma generateFood_more_fuel (random : RandomSource) (snake : list Cell) :
  forall (fuel fuel' calls : nat) (result : Cell * nat),
    generateFood random fuel calls snake = Some result ->
    (fuel <= fuel')%nat ->
    generateFood random fuel' calls snake = Some result.
Proof.
  induction fuel as [ | fuel IH]; intros fuel' calls result Hgen Hle.
  - discriminate.
  - destruct fuel' as [ | fuel']; [lia | ].
    simpl in *. destruct (some_segment snake (sample random calls)).
    + apply IH with (fuel' := fuel') in Hgen; [assumption | lia].
    + assumption.
Qed.

(** The loop stops at the [k]-th draw at the latest when that draw misses
    the snake. *)
Lemma generateFood_stops (random : RandomSource) (snake : list Cell) :
  forall (k calls : nat),
    ~ In (sample random (2 * k + calls)) snake ->
    exists (food : Cell) (calls' : nat),
      generateFood random (S k) calls snake = Some (food, calls').
Proof.
  induction k as [ | k IH]; intros calls Hfree.
  - simpl in *. apply some_segment_not_In in Hfree. rewrite Hfree. eauto.
  - cbn [generateFood].
    destruct (some_segment snake (sample random calls)); [ | eauto].
    apply IH. replace (2 * k + (2 + calls))%nat with (2 * S k + calls)%nat by lia.
    exact Hfree.
Qed.

(** On draws that all hit the snake the loop is still running after any
    number of iterations. *)
Lemma generateFood_starved (random : RandomSource) (snake : list Cell) :
  forall (fuel calls : nat),
    (forall k : nat, In (sample random (2 * k + calls)) snake) ->
    generateFood random fuel calls snake = None.
Proof.
  induction fuel as [ | fuel IH]; intros calls Hall; simpl.
  - reflexivity.
  - pose proof (Hall 0%nat) as H0. simpl in H0.
    apply some_segment_In in H0. rewrite H0.
    apply IH. intros k. specialize (Hall (S k)).
    replace (2 * S k + calls)%nat with (2 * k + (2 + calls))%nat in Hall by lia.
    exact Hall.
Qed.

(** ** One run of the interval callback *)

Lemma next_head_moves (head0 : Cell) (d : Direction) : next_head head0 d <> head0.
Proof.
  destruct head0 as [r c], d; unfold next_head; simpl; intros H;
    injection H; lia.
Qed.

Lemma tick_collision (host : Host) (fuel : nat) (w : World) (head0 : Cell) (body : list Cell) :
  snake w = head0 :: body ->
  isCollision (next_head head0 (direction w)) body = true ->
  tick host fuel w = Some (game_over host w).
Proof.
  intros Hsnake Hhit. unfold tick. rewrite Hsnake, Hhit. reflexivity.
Qed.

Lemma tick_move (host : Host) (fuel : nat) (w : World) (head0 : Cell) (body : list Cell) :
  snake w = head0 :: body ->
  isCollision (next_head head0 (direction w)) body = false ->
  next_head head0 (direction w) <> food w ->
  tick host fuel w =
    Some (redraw (moved w (next_head head0 (direction w) :: removelast (snake w))
                    (food w) (points w) (random_calls w))).
Proof.
  intros Hsnake Hclear Hfood. unfold tick. rewrite Hsnake, Hclear.
  destruct ((row (next_head head0 (direction w)) =? row (food w))
            && (col (next_head head0 (direction w)) =? col (food w))) eqn:Htest.
  - apply head_test_spec in Htest. contradiction.
  - reflexivity.
Qed.

Lemma tick_eat (host : Host) (fuel : nat) (w : World) (head0 : Cell) (body : list Cell) :
  snake w = head0 :: body ->
  isCollision (next_head head0 (direction w)) body = false ->
  next_head head0 (direction w) = food w ->
  tick host fuel w =
    match generateFood (Math_random host) fuel (random_calls w)
            (next_head head0 (direction w) :: snake w) with
    | None => None
    | Some (food', calls') =>
        Some (redraw (moved w (next_head head0 (direction w) :: snake w)
                        food' (points w + 1) calls'))
    end.
Proof.
  intros Hsnake Hclear Hfood. unfold tick. rewrite Hsnake, Hclear.
  apply head_test_spec in Hfood. rewrite Hfood. reflexivity.
Qed.

(** Redrawing changes the console (and may record an exception) only. *)
Lemma redraw_keeps (w : World) :
  snake (redraw w) = snake w /\ food (redraw w) = food w /\
  points (redraw w) = points w /\ direction (redraw w) = direction w /\
  lastDirection (redraw w) = lastDirection w /\
  random_calls (redraw w) = random_calls w /\ gameLoop (redraw w) = gameLoop w /\
  saved (redraw w) = saved w /\ exited (redraw w) = exited w /\
  files (redraw w) = files w.
Proof.
  unfold redraw. destruct (displayGrid (snake w) (food w)). simpl. tauto.
Qed.

Lemma redraw_console (w : World) :
  exists lines : list ConsoleLine,
    console (redraw w) = console w ++ Clear :: lines.
Proof.
  unfold redraw, displayGrid. destruct (snake w); simpl; eauto.
Qed.

Lemma redraw_not_game_over (host : Host) (w w1 : World) :
  console w1 = console w -> Some (redraw w1) <> Some (game_over host w).
Proof.
  intros Hconsole Heq.
  assert (Hlines' : console (redraw w1) = console (game_over host w)).
  { set (a := redraw w1) in *. set (b := game_over host w) in *. congruence. }
  destruct (redraw_console w1) as [lines Hlines].
  rewrite Hlines, Hconsole in Hlines'. simpl in Hlines'.
  apply app_inv_head in Hlines'. discriminate.
Qed.

(** The callback ends the game exactly when the new head collides with
    the rest of the snake. *)
Lemma tick_game_over_iff (host : Host) (fuel : nat) (w : World) (head0 : Cell) (body : list Cell) :
  snake w = head0 :: body ->
  (tick host fuel w = Some (game_over host w)
   <-> isCollision (next_head head0 (direction w)) body = true).
Proof.
  intros Hsnake. split; [ | now apply tick_collision].
  intros Htick.
  destruct (isCollision (next_head head0 (direction w)) body) eqn:Hhit; [reflexivity | ].
  exfalso.
  destruct (Cell_eq_dec (next_head head0 (direction w)) (food w)) as [Hfood | Hfood].
  - rewrite (tick_eat host fuel w head0 body Hsnake Hhit Hfood) in Htick.
    destruct (generateFood _ _ _ _) as [[food' calls'] | ]; [ | discriminate].
    revert Htick. now apply redraw_not_game_over.
  - rewrite (tick_move host fuel w head0 body Hsnake Hhit Hfood) in Htick.
    revert Htick. now apply redraw_not_game_over.
Qed.

(** The three ways a run of the callback can end. *)
Lemma tick_inv (host : Host) (fuel : nat) (w w' : World) (head0 : Cell) (body : list Cell) :
  snake w = head0 :: body ->
  tick host fuel w = Some w' ->
  let head := next_head head0 (direction w) in
  (isCollision head body = true /\ w' = game_over host w)
  \/ (isCollision head body = false /\ head = food w
      /\ snake w' = head :: head0 :: body
      /\ points w' = points w + 1
      /\ exists calls' : nat,
           generateFood (Math_random host) fuel (random_calls w) (head :: head0 :: body)
           = Some (food w', calls'))
  \/ (isCollision head body = false /\ head <> food w
      /\ snake w' = head :: removelast (head0 :: body)
      /\ points w' = points w
      /\ food w' = food w).
Proof.
  intros Hsnake Htick head.
  destruct (isCollision head body) eqn:Hhit.
  - left. rewrite (tick_collision host fuel w head0 body Hsnake Hhit) in Htick.
    split; congruence.
  - right. destruct (Cell_eq_dec head (food w)) as [Heat | Hmove].
    + left. rewrite (tick_eat host fuel w head0 body Hsnake Hhit Heat) in Htick.
      fold head in Htick. rewrite Hsnake in Htick.
      destruct (generateFood (Math_random host) fuel (random_calls w)
                  (head :: head0 :: body)) as [[food' calls'] | ]; [ | discriminate].
      destruct (redraw_keeps (moved w (head :: head0 :: body) food' (points w + 1) calls'))
        as [Hs [Hf [Hp _]]].
      assert (Hw' : w' = redraw (moved w (head :: head0 :: body) food' (points w + 1) calls'))
        by congruence.
      rewrite Hw', Hs, Hf, Hp. cbn [snake food points moved].
      repeat split; try assumption. now exists calls'.
    + right. rewrite (tick_move host fuel w head0 body Hsnake Hhit Hmove) in Htick.
      fold head in Htick. rewrite Hsnake in Htick.
      destruct (redraw_keeps (moved w (head :: removelast (head0 :: body)) (food w)
                                (points w) (random_calls w))) as [Hs [Hf [Hp _]]].
      assert (Hw' : w' = redraw (moved w (head :: removelast (head0 :: body)) (food w)
                                   (points w) (random_calls w))) by congruence.
      rewrite Hw', Hs, Hf, Hp. cbn [snake food points moved].
      repeat split; assumption.
Qed.

Lemma last_in_body (head0 : Cell) (body : list Cell) :
  body <> [] -> In (last (head0 :: body) head0) body.
Proof.
  intros Hbody. destruct body as [ | b rest]; [contradiction | ].
  change (last (head0 :: b :: rest) head0) with (last (b :: rest) head0).
  clear Hbody. revert b. induction rest as [ | c rest IH]; intros b.
  - now left.
  - right. apply (IH c).
Qed.

(** C1. The interval callback tests the new head against [snake.slice (1)]:
    the game ends exactly when the new head leaves the grid or lies on a
    segment other than the current head.  The last segment is one of
    those, so a move into the cell of the current tail ends the game,
    wherever the food is (also when the food lies on that very cell). *)
Theorem C1_collision_against_body_with_tail (host : Host) (fuel : nat) (w : World)
    (head0 : Cell) (body : list Cell) :
  snake w = head0 :: body ->
  let head := next_head head0 (direction w) in
  (tick host fuel w = Some (game_over host w)
     <-> isCollision head (tl (snake w)) = true)
  /\ (In head (tl (snake w)) -> tick host fuel w = Some (game_over host w))
  /\ (head = last (snake w) head0 -> tick host fuel w = Some (game_over host w)).
Proof.
  intros Hsnake head. rewrite Hsnake. simpl tl. repeat split.
  - now apply tick_game_over_iff.
  - now apply tick_game_over_iff.
  - intros Hin. apply (tick_collision host fuel w head0 body Hsnake).
    unfold isCollision. apply some_segment_In in Hin. fold head.
    rewrite Hin. now rewrite !orb_true_r.
  - intros Htail. apply (tick_collision host fuel w head0 body Hsnake).
    unfold isCollision. fold head.
    assert (Hin : In head body).
    { destruct body as [ | b rest].
      - simpl in Htail. exfalso. exact (next_head_moves head0 (direction w) Htail).
      - rewrite Htail. apply last_in_body. discriminate. }
    apply some_segment_In in Hin. rewrite Hin. now rewrite !orb_true_r.
Qed.

Lemma removelast_length (head0 : Cell) (body : list Cell) :
  List.length (removelast (head0 :: body)) = List.length body.
Proof.
  revert head0. induction body as [ | b rest IH]; intros head0.
  - reflexivity.
  - change (removelast (head0 :: b :: rest)) with (head0 :: removelast (b :: rest)).
    cbn [List.length]. f_equal. apply IH.
Qed.

(** C2. A run of the callback that does not end the game either eats (the
    new head is on the food: the head is prepended, the tail is kept, the
    length grows by one and the score by one) or moves (the new head is
    not on the food: the head is prepended, the tail is dropped, length
    and score are unchanged).  The callback fails to return only when it
    eats and [generateFood] is still looping. *)
Theorem C2_grow_or_conserve (host : Host) (fuel : nat) (w : World)
    (head0 : Cell) (body : list Cell) :
  snake w = head0 :: body ->
  isCollision (next_head head0 (direction w)) body = false ->
  let head := next_head head0 (direction w) in
  match tick host fuel w with
  | Some w' =>
      (head = food w
       /\ snake w' = head :: snake w
       /\ List.length (snake w') = S (List.length (snake w))
       /\ points w' = points w + 1)
      \/
      (head <> food w
       /\ snake w' = head :: removelast (snake w)
       /\ List.length (snake w') = List.length (snake w)
       /\ points w' = points w)
  | None =>
      head = food w
      /\ generateFood (Math_random host) fuel (random_calls w) (head :: snake w) = None
  end.
Proof.
  intros Hsnake Hclear head.
  destruct (Cell_eq_dec head (food w)) as [Hfood | Hfood].
  - rewrite (tick_eat host fuel w head0 body Hsnake Hclear Hfood). fold head.
    destruct (generateFood (Math_random host) fuel (random_calls w) (head :: snake w))
      as [[food' calls'] | ] eqn:Hgen.
    + left.
      destruct (redraw_keeps (moved w (head :: snake w) food' (points w + 1) calls'))
        as [Hs [_ [Hp _]]].
      rewrite Hs, Hp. simpl. auto.
    + split; [assumption | reflexivity].
  - rewrite (tick_move host fuel w head0 body Hsnake Hclear Hfood). fold head.
    right.
    destruct (redraw_keeps (moved w (head :: removelast (snake w)) (food w)
                              (points w) (random_calls w)))
      as [Hs [_ [Hp _]]].
    rewrite Hs, Hp. simpl. repeat split; try assumption.
    rewrite Hsnake. rewrite removelast_length. reflexivity.
Qed.

(** ** Sorting by score *)

Section SortFacts.

Context {A : Type} (key : A -> Z).

Lemma sort_insert_perm (x : A) (l : list A) :
  Permutation (sort_insert key x l) (x :: l).
Proof.
  induction l as [ | y rest IH]; simpl.
  - apply Permutation_refl.
  - destruct (compareFn key x y <=? 0).
    + apply Permutation_refl.
    + eapply perm_trans; [apply perm_skip, IH | apply perm_swap].
Qed.

Lemma Array_sort_perm (l : list A) : Permutation (Array_sort key l) l.
Proof.
  induction l as [ | x rest IH]; simpl.
  - constructor.
  - eapply perm_trans; [apply sort_insert_perm | now apply perm_skip].
Qed.

Lemma sort_insert_descending (x : A) (l : list A) :
  descending key l -> descending key (sort_insert key x l).
Proof.
  unfold descending. induction l as [ | y rest IH]; simpl; intros Hsorted.
  - repeat constructor.
  - apply StronglySorted_inv in Hsorted as [Hrest Hy].
    unfold compareFn. destruct (key y - key x <=? 0) eqn:Hcmp.
    + apply Z.leb_le in Hcmp. constructor.
      * now constructor.
      * constructor; [lia | ].
        rewrite Forall_forall in *. intros b Hb. specialize (Hy b Hb). lia.
    + apply Z.leb_gt in Hcmp. constructor.
      * now apply IH.
      * rewrite Forall_forall in *. intros b Hb.
        apply (Permutation_in _ (sort_insert_perm x rest)) in Hb.
        destruct Hb as [<- | Hb]; [lia | now apply Hy].
Qed.

Lemma Array_sort_descending (l : list A) : descending key (Array_sort key l).
Proof.
  induction l as [ | x rest IH]; simpl.
  - constructor.
  - now apply sort_insert_descending.
Qed.

(** Stability: elements with equal keys keep their order. *)
Lemma sort_insert_stable (k : Z) (x : A) (l : list A) :
  filter (fun a => key a =? k) (sort_insert key x l)
  = filter (fun a => key a =? k) (x :: l).
Proof.
  induction l as [ | y rest IH]; [reflexivity | ].
  cbn [sort_insert]. unfold compareFn.
  destruct (key y - key x <=? 0) eqn:Hcmp; [reflexivity | ].
  apply Z.leb_gt in Hcmp.
  cbn [filter] in *. rewrite IH.
  destruct (key y =? k) eqn:Hy, (key x =? k) eqn:Hx; try reflexivity.
  apply Z.eqb_eq in Hy, Hx. lia.
Qed.

Lemma Array_sort_stable (k : Z) (l : list A) :
  filter (fun a => key a =? k) (Array_sort key l)
  = filter (fun a => key a =? k) l.
Proof.
  induction l as [ | x rest IH]; [reflexivity | ].
  cbn [Array_sort]. rewrite sort_insert_stable.
  cbn [filter]. now rewrite IH.
Qed.

Lemma descending_app (l1 l2 : list A) :
  descending key (l1 ++ l2) ->
  descending key l1 /\ forall a b, In a l1 -> In b l2 -> key b <= key a.
Proof.
  unfold descending. induction l1 as [ | x rest IH]; simpl; intros Hsorted.
  - split; [constructor | intros a b []].
  - apply StronglySorted_inv in Hsorted as [Hrest Hx].
    destruct (IH Hrest) as [Hsorted' Hcross]. split.
    + constructor; [assumption | ].
      rewrite Forall_forall in *. intros b Hb. apply Hx, in_or_app. now left.
    + intros a b [<- | Ha] Hb.
      * rewrite Forall_forall in Hx. apply Hx, in_or_app. now right.
      * now apply Hcross.
Qed.

(** What [push], [sort], [splice (5)] leave: the five best of the table
    with the new entry, best first. *)
Lemma push_sort_splice_spec (table : list A) (entry : A) :
  let result := push_sort_splice key table entry in
  let dropped := skipn 5 (Array_sort key (table ++ [entry])) in
  Permutation (result ++ dropped) (table ++ [entry])
  /\ descending key result
  /\ (forall a b, In a result -> In b dropped -> key b <= key a)
  /\ List.length result = Nat.min 5 (List.length table + 1).
Proof.
  intros result dropped. unfold result, dropped, push_sort_splice.
  pose proof (Array_sort_descending (table ++ [entry])) as Hsorted.
  rewrite <- (firstn_skipn 5 (Array_sort key (table ++ [entry]))) in Hsorted.
  apply descending_app in Hsorted as [Hkept Hcross].
  repeat split.
  - rewrite firstn_skipn. apply Array_sort_perm.
  - exact Hkept.
  - exact Hcross.
  - rewrite length_firstn.
    rewrite (Permutation_length (Array_sort_perm (table ++ [entry]))).
    now rewrite length_app.
Qed.

(** With room left in the table the new entry is kept. *)
Lemma push_sort_splice_keeps_entry (table : list A) (entry : A) :
  (List.length table < 5)%nat -> In entry (push_sort_splice key table entry).
Proof.
  intros Hroom. unfold push_sort_splice.
  rewrite firstn_all2.
  - apply (Permutation_in _ (Permutation_sym (Array_sort_perm _))).
    apply in_or_app. right. now left.
  - rewrite (Permutation_length (Array_sort_perm (table ++ [entry]))).
    rewrite length_app. simpl. lia.
Qed.

End SortFacts.

(** ** The high-score store *)

Lemma entry_has_score (e : HighScoreEntry) : has_score (entry_to_json e) = true.
Proof.
  reflexivity.
Qed.

Lemma entry_score_key (e : HighScoreEntry) : score_key (entry_to_json e) = score e.
Proof.
  reflexivity.
Qed.

(** [loadHighScores] by cases on the file. *)
Lemma loadHighScores_absent (host : Host) :
  loadHighScores host None = Returns (JArray []).
Proof.
  reflexivity.
Qed.

Lemma loadHighScores_unparsable (host : Host) (data : string) :
  JSON_parse host data = None ->
  loadHighScores host (Some data) = Returns (JArray []).
Proof.
  intros Hparse. unfold loadHighScores, parse. simpl. now rewrite Hparse.
Qed.

Lemma loadHighScores_parsed (host : Host) (data : string) (v : JSON) :
  JSON_parse host data = Some v ->
  loadHighScores host (Some data) = Returns v.
Proof.
  intros Hparse. unfold loadHighScores, parse. simpl. now rewrite Hparse.
Qed.

(** On an array whose elements all carry a numeric score the save writes
    the five best of the array with the new entry. *)
Lemma saveHighScore_array (host : Host) (fs : FileSystem) (items : list JSON)
    (final_score : Z) (player : string) :
  loadHighScores host fs = Returns (JArray items) ->
  forallb has_score items = true ->
  saveHighScore host fs final_score player =
    Returns (Some (JSON_stringify host
      (JArray (push_sort_splice score_key items
         (entry_to_json (mkEntry player final_score (Date_toISOString host))))))).
Proof.
  intros Hload Hscores. unfold saveHighScore. rewrite Hload. simpl.
  unfold sort_by_score. rewrite forallb_app, Hscores. reflexivity.
Qed.

Lemma In_firstn (A : Type) (n : nat) (l : list A) (x : A) :
  In x (firstn n l) -> In x l.
Proof.
  intros Hin. rewrite <- (firstn_skipn n l). apply in_or_app. now left.
Qed.

(** What holds of every element of the table and of the new entry holds
    of every element kept. *)
Lemma push_sort_splice_forallb (test : JSON -> bool) (items : list JSON) (entry : JSON) :
  forallb test items = true ->
  test entry = true ->
  forallb test (push_sort_splice score_key items entry) = true.
Proof.
  intros Hitems Hentry. apply forallb_forall. intros v Hv.
  unfold push_sort_splice in Hv. apply In_firstn in Hv.
  apply (Permutation_in _ (Array_sort_perm score_key _)) in Hv.
  apply in_app_or in Hv as [Hv | [<- | []]].
  - rewrite forallb_forall in Hitems. now apply Hitems.
  - exact Hentry.
Qed.

Lemma push_sort_splice_has_score (items : list JSON) (entry : HighScoreEntry) :
  forallb has_score items = true ->
  forallb has_score (push_sort_splice score_key items (entry_to_json entry)) = true.
Proof.
  intros Hitems. apply push_sort_splice_forallb; [exact Hitems | apply entry_has_score].
Qed.

Lemma last_behind (A : Type) (l : list A) (x d : A) : last (x :: l) d = last l x.
Proof.
  revert x d. induction l as [ | y rest IH]; intros x d; [reflexivity | ].
  change (last (x :: y :: rest) d) with (last (y :: rest) d).
  now rewrite !IH.
Qed.

(** One save after the other: as long as [JSON.parse] reads back each
    table [JSON.stringify] wrote, every save loads the table the save
    before it left, and loading at the end returns the last of them. *)
Lemma save_all_tables (host : Host) (player : string) (scores : list Z) :
  forall (fs : FileSystem) (items : list JSON),
    loadHighScores host fs = Returns (JArray items) ->
    forallb has_score items = true ->
    (forall table : list JSON,
       In table (tables_after host player items scores) ->
       JSON_parse host (JSON_stringify host (JArray table)) = Some (JArray table)) ->
    exists fs' : FileSystem,
      save_all host fs scores player = Returns fs'
      /\ loadHighScores host fs'
         = Returns (JArray (last (tables_after host player items scores) items)).
Proof.
  induction scores as [ | final_score later IH]; intros fs items Hload Hscores Hback.
  - exists fs. split; [reflexivity | exact Hload].
  - cbn [save_all tables_after] in *.
    set (table := push_sort_splice score_key items
                    (entry_to_json (mkEntry player final_score (Date_toISOString host))))
      in *.
    rewrite (saveHighScore_array host fs items final_score player Hload Hscores).
    fold table. cbn [bind].
    destruct (IH (Some (JSON_stringify host (JArray table))) table)
      as [fs' [Hsave Hlast]].
    + apply loadHighScores_parsed, Hback. now left.
    + now apply push_sort_splice_has_score.
    + intros t Ht. apply Hback. now right.
    + exists fs'. split; [exact Hsave | ].
      rewrite Hlast. f_equal. f_equal. symmetry. apply last_behind.
Qed.

(** C7. [saveHighScore] appends an entry to the table it loads by pushing
    the entry, sorting by score in descending order and keeping the first
    five: the table it writes, together with what was cut off, is a
    permutation of the loaded table with the entry; it is descending;
    nothing cut off beats anything kept; and its length is the smaller of
    5 and the length of the loaded table plus one.  Saving the scores 3,
    1, 4, 1, 5, 9, 2, 6 one after the other, starting without a file,
    leaves a table of exactly five entries with the scores 9, 6, 5, 4, 3
    in this order, whatever the name and the date, provided [JSON.parse]
    reads back the tables written on the way. *)
Theorem C7_append_keeps_top_five (host : Host) :
  (forall (fs : FileSystem) (items : list JSON) (final_score : Z) (player : string),
     loadHighScores host fs = Returns (JArray items) ->
     forallb has_score items = true ->
     let entry := entry_to_json (mkEntry player final_score (Date_toISOString host)) in
     exists result dropped : list JSON,
       saveHighScore host fs final_score player
         = Returns (Some (JSON_stringify host (JArray result)))
       /\ Permutation (result ++ dropped) (items ++ [entry])
       /\ (forall a b, In a result -> In b dropped -> score_key b <= score_key a)
       /\ descending score_key result
       /\ List.length result = Nat.min 5 (List.length items + 1))
  /\
  (forall player : string,
     (forall table : list JSON,
        In table (tables_after host player [] [3; 1; 4; 1; 5; 9; 2; 6]) ->
        JSON_parse host (JSON_stringify host (JArray table)) = Some (JArray table)) ->
     exists (fs' : FileSystem) (table : list JSON),
       save_all host None [3; 1; 4; 1; 5; 9; 2; 6] player = Returns fs'
       /\ loadHighScores host fs' = Returns (JArray table)
       /\ map score_key table = [9; 6; 5; 4; 3]
       /\ List.length table = 5%nat
       /\ descending score_key table).
Proof.
  split.
  - intros fs items final_score player Hload Hscores entry.
    destruct (push_sort_splice_spec score_key items entry)
      as [Hperm [Hdesc [Hcut Hlen]]].
    exists (push_sort_splice score_key items entry),
      (skipn 5 (Array_sort score_key (items ++ [entry]))).
    split; [ | repeat split; assumption].
    exact (saveHighScore_array host fs items final_score player Hload Hscores).
  - intros player Hback.
    destruct (save_all_tables host player [3; 1; 4; 1; 5; 9; 2; 6] None []
                (loadHighScores_absent host) eq_refl Hback)
      as [fs' [Hsave Hload]].
    exists fs', (last (tables_after host player [] [3; 1; 4; 1; 5; 9; 2; 6]) []).
    split; [exact Hsave | ]. split; [exact Hload | ].
    split; [reflexivity | ]. split; [reflexivity | ].
    unfold descending.
    change (last (tables_after host player [] [3; 1; 4; 1; 5; 9; 2; 6]) [])
      with (map (fun s => entry_to_json (mkEntry player s (Date_toISOString host)))
              [9; 6; 5; 4; 3]).
    repeat constructor; cbn; lia.
Qed.

(** C8. [loadHighScores] never throws and never ends otherwise than by
    returning a value; when the file is absent, or holds text that
    [JSON.parse] refuses, the value is the empty array. *)
Theorem C8_load_never_raises (host : Host) (fs : FileSystem) :
  (exists v : JSON, loadHighScores host fs = Returns v)
  /\ (fs = None \/ (exists data, fs = Some data /\ JSON_parse host data = None) ->
      loadHighScores host fs = Returns (JArray [])).
Proof.
  split.
  - destruct fs as [data | ].
    + destruct (JSON_parse host data) as [v | ] eqn:Hparse.
      * exists v. now apply loadHighScores_parsed.
      * exists (JArray []). now apply loadHighScores_unparsable.
    + exists (JArray []). apply loadHighScores_absent.
  - intros [-> | [data [-> Hparse]]].
    + apply loadHighScores_absent.
    + now apply loadHighScores_unparsable.
Qed.

(** C10. When the text of the file parses, [loadHighScores] returns the
    parsed value itself, whatever it is: nothing is checked, sorted or cut.
    Only [saveHighScore] restores the shape: from a parsed array of
    entries with scores, however long and in whatever order, it writes an
    array of at most five elements in descending order of score. *)
Theorem C10_load_returns_parsed_value_unchanged (host : Host) (data : string) (v : JSON) :
  JSON_parse host data = Some v ->
  loadHighScores host (Some data) = Returns v
  /\ (forall (items : list JSON) (final_score : Z) (player : string),
        v = JArray items ->
        forallb has_score items = true ->
        exists table : list JSON,
          saveHighScore host (Some data) final_score player
            = Returns (Some (JSON_stringify host (JArray table)))
          /\ (List.length table <= 5)%nat
          /\ descending score_key table).
Proof.
  intros Hparse.
  pose proof (loadHighScores_parsed host data v Hparse) as Hload.
  split; [exact Hload | ].
  intros items final_score player -> Hscores.
  eexists. split.
  - exact (saveHighScore_array host (Some data) items final_score player Hload Hscores).
  - destruct (push_sort_splice_spec score_key items
                (entry_to_json (mkEntry player final_score (Date_toISOString host))))
      as [_ [Hdesc [_ Hlen]]].
    split; [ | exact Hdesc].
    rewrite Hlen. apply Nat.le_min_l.
Qed.

(** ** Once the game is over *)

Lemma run_halted (host : Host) (fuel : nat) (w : World) (events : list Event) :
  halted w = true -> run host fuel w events = Some w.
Proof.
  intros Hhalted. induction events as [ | ev later IH]; simpl.
  - reflexivity.
  - unfold dispatch. now rewrite Hhalted.
Qed.

Lemma game_over_prompts (host : Host) (w : World) :
  gameLoop (game_over host w) = false
  /\ prompting (game_over host w) = true
  /\ console (game_over host w) = console w ++ [GameOverLine (points w)]
  /\ points (game_over host w) = points w
  /\ files (game_over host w) = files w
  /\ halted (game_over host w) = halted w.
Proof.
  repeat split.
Qed.

Lemma quit_halted (w : World) : halted (quit w) = true.
Proof.
  reflexivity.
Qed.

Lemma prompt_answered_halted (host : Host) (w : World) :
  halted (prompt_answered host w) = true.
Proof.
  unfold prompt_answered. destruct (mentions_q (prompt_answer host)).
  - apply quit_halted.
  - unfold halted. cbn [exited uncaught saved]. apply orb_true_r.
Qed.

(** With no [q] in the answer, the callback resumes with
    [saveHighScore (score, name)]; a [q] typed at the prompt has ended the
    process before. *)
Lemma prompt_answered_saves (host : Host) (w : World) :
  mentions_q (prompt_answer host) = false ->
  saved (prompt_answered host w)
    = Some (saveHighScore host (files w) (points w) (prompt_answer host))
  /\ exited (prompt_answered host w) = exited w
  /\ console (prompt_answered host w) = console w.
Proof.
  intros Hq. unfold prompt_answered. rewrite Hq. repeat split.
Qed.

Lemma prompt_answered_keeps (host : Host) (w : World) :
  snake (prompt_answered host w) = snake w
  /\ food (prompt_answered host w) = food w
  /\ points (prompt_answered host w) = points w
  /\ direction (prompt_answered host w) = direction w
  /\ lastDirection (prompt_answered host w) = lastDirection w.
Proof.
  unfold prompt_answered. destruct (mentions_q (prompt_answer host)); repeat split.
Qed.

(** A lost game whose prompt is answered without a [q]: the interval is
    cleared, the score is printed, and [saveHighScore] is called with the
    score and the name. *)
Lemma collision_then_answer_saves (host : Host) (fuel : nat) (w : World)
    (head0 : Cell) (body : list Cell) :
  halted w = false ->
  gameLoop w = true ->
  snake w = head0 :: body ->
  isCollision (next_head head0 (direction w)) body = true ->
  mentions_q (prompt_answer host) = false ->
  exists w' : World,
    run host fuel w [Tick; Answered] = Some w'
    /\ gameLoop w' = false
    /\ console w' = console w ++ [GameOverLine (points w)]
    /\ saved w' = Some (saveHighScore host (files w) (points w) (prompt_answer host)).
Proof.
  intros Hrun Hloop Hsnake Hhit Hq.
  exists (prompt_answered host (game_over host w)).
  cbn [run]. unfold dispatch at 1.
  rewrite Hrun, Hloop, (tick_collision host fuel w head0 body Hsnake Hhit).
  unfold dispatch.
  destruct (game_over_prompts host w) as [_ [Hprompt [_ [_ [_ Hsame]]]]].
  rewrite Hsame, Hrun, Hprompt. split; [reflexivity | ].
  unfold prompt_answered. rewrite Hq. repeat split.
Qed.

(** C3. The final score does not always reach the store.  When the new
    head collides, the callback clears the interval, prints the game-over
    line with the current score and waits at the prompt; [saveHighScore]
    comes after that wait.  The keypress listener is still installed, so
    a [q] typed at the prompt ends the process before [saveHighScore] is
    called, and nothing that happens later saves the score.  For the
    snake [(0, 0)] heading up with score 0 the new head has row -1, the
    game-over line shows 0, and a [q] at the prompt leaves the score
    unsaved. *)
Theorem C3_quit_at_the_prompt_loses_the_score (host : Host) (fuel : nat) :
  (forall (w : World) (head0 : Cell) (body : list Cell) (k : Key),
     halted w = false ->
     gameLoop w = true ->
     snake w = head0 :: body ->
     isCollision (next_head head0 (direction w)) body = true ->
     is_literal (key_name k) "q" = true ->
     exists w1 w2 : World,
       tick host fuel w = Some w1
       /\ gameLoop w1 = false
       /\ console w1 = console w ++ [GameOverLine (points w)]
       /\ saved w1 = None
       /\ run host fuel w [Tick; Keypress k] = Some w2
       /\ exited w2 = true
       /\ saved w2 = None
       /\ (forall fuel' events, run host fuel' w2 events = Some w2))
  /\
  (forall (last : Direction) (food0 : Cell) (calls : nat) (raw : bool)
          (printed : list ConsoleLine) (fs : FileSystem) (k : Key),
     let w := mkWorld [mkCell 0 0] up last food0 0 calls true raw printed
                fs None None false false in
     is_literal (key_name k) "q" = true ->
     row (next_head (mkCell 0 0) up) = -1
     /\ exists w1 w2 : World,
          tick host fuel w = Some w1
          /\ gameLoop w1 = false
          /\ console w1 = printed ++ [GameOverLine 0]
          /\ run host fuel w [Tick; Keypress k] = Some w2
          /\ exited w2 = true
          /\ saved w2 = None).
Proof.
  assert (Hgeneral :
    forall (w : World) (head0 : Cell) (body : list Cell) (k : Key),
      halted w = false ->
      gameLoop w = true ->
      snake w = head0 :: body ->
      isCollision (next_head head0 (direction w)) body = true ->
      is_literal (key_name k) "q" = true ->
      tick host fuel w = Some (game_over host w)
      /\ saved w = None
      /\ run host fuel w [Tick; Keypress k] = Some (quit (game_over host w))).
  { intros w head0 body k Hrun Hloop Hsnake Hhit Hq.
    pose proof (tick_collision host fuel w head0 body Hsnake Hhit) as Htick.
    assert (Hsaved : saved w = None).
    { unfold halted in Hrun. destruct (saved w); [ | reflexivity].
      rewrite orb_true_r in Hrun. discriminate. }
    repeat split; [exact Htick | exact Hsaved | ].
    cbn [run]. unfold dispatch at 1. rewrite Hrun, Hloop, Htick.
    unfold dispatch.
    destruct (game_over_prompts host w) as [_ [_ [_ [_ [_ Hsame]]]]].
    rewrite Hsame, Hrun. unfold keypress. now rewrite Hq. }
  split.
  - intros w head0 body k Hrun Hloop Hsnake Hhit Hq.
    destruct (Hgeneral w head0 body k Hrun Hloop Hsnake Hhit Hq)
      as [Htick [Hsaved Hquit]].
    exists (game_over host w), (quit (game_over host w)).
    repeat split; try assumption.
    intros fuel' events. apply run_halted, quit_halted.
  - intros last food0 calls raw printed fs k w Hq.
    split; [reflexivity | ].
    destruct (Hgeneral w (mkCell 0 0) [] k eq_refl eq_refl eq_refl eq_refl Hq)
      as [Htick [_ Hquit]].
    exists (game_over host w), (quit (game_over host w)).
    repeat split; assumption.
Qed.

(** ** Direction changes *)

Lemma isOppositeDirection_spec (dir1 dir2 : Direction) :
  isOppositeDirection dir1 dir2 = true <-> dir1 = opposite dir2.
Proof.
  destruct dir1, dir2; simpl; split; intros H; (reflexivity || discriminate).
Qed.

Lemma turn_keeps (w : World) (requested : option Direction) :
  snake (turn w requested) = snake w /\ food (turn w requested) = food w /\
  points (turn w requested) = points w.
Proof.
  unfold turn. destruct requested as [d | ]; [ | tauto].
  destruct (negb (isOppositeDirection d (lastDirection w))); simpl; tauto.
Qed.

Lemma keypress_keeps (w : World) (k : Key) :
  snake (keypress w k) = snake w /\ food (keypress w k) = food w /\
  points (keypress w k) = points w.
Proof.
  unfold keypress. destruct (is_literal (key_name k) "q").
  - simpl. tauto.
  - apply turn_keeps.
Qed.

(** C6. The listener accepts the requested direction unless it is the
    exact opposite of the last accepted one (up and down, left and right),
    in which case direction and last accepted direction stay as they are:
    [acceptDirection ('up', 'down')] is ['down'] and
    [acceptDirection ('left', 'up')] is ['left']. *)
Theorem C6_reversal_is_rejected :
  (forall requested lastAccepted : Direction,
     (requested = opposite lastAccepted ->
        acceptDirection requested lastAccepted = lastAccepted)
     /\ (requested <> opposite lastAccepted ->
        acceptDirection requested lastAccepted = requested))
  /\ (forall (w : World) (requested : Direction),
        lastDirection (turn w (Some requested))
          = acceptDirection requested (lastDirection w)
        /\ (requested = opposite (lastDirection w) -> turn w (Some requested) = w)
        /\ (requested <> opposite (lastDirection w) ->
              direction (turn w (Some requested)) = requested))
  /\ (forall (w : World) (k : Key) (requested : Direction),
        is_literal (key_name k) "q" = false ->
        newDirection k = Some requested ->
        lastDirection (keypress w k) = acceptDirection requested (lastDirection w))
  /\ acceptDirection up down = down
  /\ acceptDirection left up = left
  /\ (opposite up = down /\ opposite down = up
      /\ opposite left = right /\ opposite right = left).
Proof.
  split; [ | split; [ | split]].
  - intros requested lastAccepted. unfold acceptDirection. split; intros H.
    + apply isOppositeDirection_spec in H. now rewrite H.
    + destruct (isOppositeDirection requested lastAccepted) eqn:Hopp; [ | reflexivity].
      apply isOppositeDirection_spec in Hopp. contradiction.
  - intros w requested. unfold turn, acceptDirection.
    destruct (isOppositeDirection requested (lastDirection w)) eqn:Hopp; simpl.
    + split; [reflexivity | split].
      * intros _. reflexivity.
      * intros H. apply isOppositeDirection_spec in Hopp. contradiction.
    + split; [reflexivity | split].
      * intros H. apply isOppositeDirection_spec in H. congruence.
      * intros _. reflexivity.
  - intros w k requested Hq Hnew. unfold keypress. rewrite Hq, Hnew.
    unfold turn, acceptDirection.
    now destruct (isOppositeDirection requested (lastDirection w)).
  - repeat split.
Qed.

(** ** Invariants of a game *)

Lemma In_removelast (c : Cell) (l : list Cell) : In c (removelast l) -> In c l.
Proof.
  induction l as [ | x rest IH]; simpl; [auto | ].
  destruct rest as [ | y rest']; [intros [] | ].
  intros [-> | Hin]; [now left | right; now apply IH].
Qed.

Lemma playGame_invariant (host : Host) (fuel : nat) (fs : FileSystem) (w : World) :
  playGame host fuel fs = Some w ->
  snake w = INITIAL_SNAKE /\ points w = 0 /\ game_invariant w.
Proof.
  unfold playGame. intros Hplay.
  destruct (generateFood (Math_random host) fuel 0 INITIAL_SNAKE)
    as [[food0 calls] | ] eqn:Hgen; [ | discriminate].
  injection Hplay as <-. simpl.
  apply generateFood_returns in Hgen as [k [_ [_ [_ [Hfree _]]]]].
  repeat split; [discriminate | exact Hfree].
Qed.

Lemma tick_invariant (host : Host) (fuel : nat) (w w' : World) :
  game_invariant w -> tick host fuel w = Some w' ->
  game_invariant w' /\ points w <= points w'.
Proof.
  intros [Hne [Hscore Hfood]] Htick.
  destruct (snake w) as [ | head0 body] eqn:Hsnake; [contradiction | ].
  unfold game_invariant.
  destruct (tick_inv host fuel w w' head0 body Hsnake Htick)
    as [[_ ->] | [[_ [_ [Hs [Hp [calls' Hgen]]]]] | [_ [Hmove [Hs [Hp Hf]]]]]].
  - simpl. rewrite Hsnake. repeat split; [discriminate | assumption | assumption | lia].
  - apply generateFood_returns in Hgen as [k [_ [_ [_ [Hfree _]]]]].
    rewrite Hs, Hp. repeat split; [discriminate | | exact Hfree | lia].
    rewrite Hscore. cbn [List.length]. lia.
  - rewrite Hs, Hp, Hf. repeat split; [discriminate | | | lia].
    + rewrite Hscore. cbn [List.length]. rewrite removelast_length. reflexivity.
    + intros [Hhead | Hin]; [now apply Hmove | ].
      apply In_removelast in Hin. now apply Hfood.
Qed.

Lemma dispatch_invariant (host : Host) (fuel : nat) (w w' : World) (ev : Event) :
  game_invariant w -> dispatch host fuel w ev = Some w' ->
  game_invariant w' /\ points w <= points w'.
Proof.
  intros Hinv Hstep. unfold dispatch in Hstep.
  destruct (halted w).
  - injection Hstep as <-. split; [assumption | lia].
  - destruct ev as [ | k | ].
    + destruct (gameLoop w).
      * now apply tick_invariant with (host := host) (fuel := fuel).
      * injection Hstep as <-. split; [assumption | lia].
    + injection Hstep as <-.
      destruct (keypress_keeps w k) as [Hs [Hf Hp]].
      unfold game_invariant. rewrite Hs, Hf, Hp. split; [assumption | lia].
    + destruct (prompting w); injection Hstep as <-; [ | split; [assumption | lia]].
      destruct (prompt_answered_keeps host w) as [Hs [Hf [Hp _]]].
      unfold game_invariant. rewrite Hs, Hf, Hp. split; [assumption | lia].
Qed.

Lemma reachable_invariant (host : Host) (w : World) :
  reachable host w -> game_invariant w.
Proof.
  induction 1 as [fuel fs w Hplay | fuel w ev w' Hreach IH Hstep].
  - now apply playGame_invariant in Hplay.
  - now apply (dispatch_invariant host fuel w w' ev).
Qed.

(** C4. The food is never on the snake.  Whatever [generateFood] returns
    lies on no segment of the snake it was given; in the callback it is
    given the snake with the new head prepended and the tail kept, so the
    new food differs from both; and in every world of a game the food
    lies on no segment. *)
Theorem C4_food_is_never_on_the_snake (host : Host) :
  (forall (random : RandomSource) (fuel calls : nat) (snake0 : list Cell)
          (food0 : Cell) (calls' : nat),
     generateFood random fuel calls snake0 = Some (food0, calls') ->
     ~ In food0 snake0)
  /\ (forall (fuel : nat) (w w' : World) (head0 : Cell) (body : list Cell),
        snake w = head0 :: body ->
        isCollision (next_head head0 (direction w)) body = false ->
        next_head head0 (direction w) = food w ->
        tick host fuel w = Some w' ->
        snake w' = next_head head0 (direction w) :: head0 :: body
        /\ ~ In (food w') (snake w')
        /\ food w' <> next_head head0 (direction w)
        /\ food w' <> last (head0 :: body) head0)
  /\ (forall w : World, reachable host w -> ~ In (food w) (snake w)).
Proof.
  split; [ | split].
  - intros random fuel calls snake0 food0 calls' Hgen.
    now apply generateFood_returns in Hgen as [k [_ [_ [_ [Hfree _]]]]].
  - intros fuel w w' head0 body Hsnake Hclear Heat Htick.
    destruct (tick_inv host fuel w w' head0 body Hsnake Htick)
      as [[Hhit _] | [[_ [_ [Hs [_ [calls' Hgen]]]]] | [_ [Hmove _]]]];
      [congruence | | contradiction].
    apply generateFood_returns in Hgen as [k [_ [_ [_ [Hfree _]]]]].
    rewrite Hs. split; [reflexivity | ]. split; [exact Hfree | ]. split.
    + intros Heq. apply Hfree. left. now symmetry.
    + intros Heq. apply Hfree. right. rewrite Heq.
      destruct body as [ | b rest]; [now left | ].
      right. apply last_in_body. discriminate.
  - intros w Hreach. now apply reachable_invariant in Hreach as [_ [_ Hfood]].
Qed.

Lemma displayGrid_score_line (snake0 : list Cell) (food0 : Cell) (z : Z) :
  In (ScoreLine z) (fst (displayGrid snake0 food0)) ->
  z = Z.of_nat (List.length snake0) - 1.
Proof.
  unfold displayGrid. destruct snake0 as [ | head body]; cbn [fst]; intros Hin.
  - apply in_inv in Hin as [H | []]. discriminate.
  - apply in_inv in Hin as [H | Hin]; [discriminate | ].
    apply in_app_or in Hin as [Hin | Hin].
    + apply in_map_iff in Hin as [r [H _]]. discriminate.
    + apply in_inv in Hin as [H | []]. now injection H.
Qed.

(** C5. In every world of a game the score is the length of the snake
    minus one (it is the number [displayGrid] prints); it is 0 for the
    initial snake of length 1; an event never lowers it, and it goes up by
    one exactly when the snake gets one segment longer. *)
Theorem C5_score_is_length_minus_one (host : Host) (w : World) :
  reachable host w ->
  points w = Z.of_nat (List.length (snake w)) - 1
  /\ (forall z : Z,
        In (ScoreLine z) (fst (displayGrid (snake w) (food w))) -> z = points w)
  /\ (forall (fuel : nat) (ev : Event) (w' : World),
        dispatch host fuel w ev = Some w' ->
        points w <= points w'
        /\ (points w' = points w + 1
            <-> List.length (snake w') = S (List.length (snake w))))
  /\ (forall (fuel : nat) (fs : FileSystem) (w0 : World),
        playGame host fuel fs = Some w0 ->
        points w0 = 0 /\ List.length (snake w0) = 1%nat).
Proof.
  intros Hreach.
  pose proof (reachable_invariant host w Hreach) as Hinv.
  destruct Hinv as [Hne [Hscore Hfood]].
  split; [exact Hscore | ]. split; [ | split].
  - intros z Hz. apply displayGrid_score_line in Hz. congruence.
  - intros fuel ev w' Hstep.
    destruct (dispatch_invariant host fuel w w' ev (conj Hne (conj Hscore Hfood)) Hstep)
      as [[_ [Hscore' _]] Hmono].
    split; [exact Hmono | ]. rewrite Hscore, Hscore'. lia.
  - intros fuel fs w0 Hplay.
    apply playGame_invariant in Hplay as [Hsnake [Hpoints _]].
    split; [exact Hpoints | now rewrite Hsnake].
Qed.

(** ** How often the loop of [generateFood] keeps running *)

Lemma generateFood_running_iff (random : RandomSource) (snake0 : list Cell) :
  forall k calls : nat,
    still_running random k calls snake0 = true
    <-> forall j : nat, (j < k)%nat -> In (sample random (2 * j + calls)) snake0.
Proof.
  unfold still_running.
  induction k as [ | k IH]; intros calls; cbn [generateFood].
  - split; [intros _ j Hj; lia | reflexivity].
  - destruct (some_segment snake0 (sample random calls)) eqn:Hocc.
    + rewrite IH. split; intros H j Hj.
      * destruct j as [ | j]; [now apply some_segment_In | ].
        replace (2 * S j + calls)%nat with (2 * j + (2 + calls))%nat by lia.
        apply H. lia.
      * replace (2 * j + (2 + calls))%nat with (2 * S j + calls)%nat by lia.
        apply H. lia.
    + split; [discriminate | ].
      intros H. specialize (H 0%nat ltac:(lia)). simpl in H.
      apply some_segment_In in H. congruence.
Qed.

Lemma floor_of_midpoint (d : Z) : Qfloor ((2 * d + 1 # 20) * inject_Z GRID_SIZE) = d.
Proof.
  unfold Qfloor, Qmult, inject_Z, GRID_SIZE. cbn [Qnum Qden].
  symmetry. apply Z.div_unique with (r := 10); lia.
Qed.

Lemma sample_random_of_draws (draws : list Cell) (j : nat) :
  sample (random_of_draws draws) (2 * j) = nth j draws (mkCell 0 0).
Proof.
  unfold sample, random_index, random_of_draws.
  assert (Heven : Nat.even (2 * j) = true) by (rewrite Nat.even_mul; reflexivity).
  assert (Hodd : Nat.even (S (2 * j)) = false).
  { rewrite Nat.even_succ, <- Nat.negb_even, Heven. reflexivity. }
  rewrite Heven, Hodd, Nat.div2_succ_double, Nat.div2_double, !floor_of_midpoint.
  now destruct (nth j draws (mkCell 0 0)).
Qed.

Lemma random_of_draws_in_unit_interval (draws : list Cell) :
  Forall in_grid draws -> in_unit_interval (random_of_draws draws).
Proof.
  intros Hgrid i. unfold random_of_draws.
  set (c := nth (Nat.div2 i) draws (mkCell 0 0)).
  assert (Hc : in_grid c).
  { unfold c. destruct (Nat.lt_ge_cases (Nat.div2 i) (List.length draws)) as [Hlt | Hge].
    - rewrite Forall_forall in Hgrid. now apply Hgrid, nth_In.
    - rewrite nth_overflow by assumption. unfold in_grid, GRID_SIZE. simpl. lia. }
  destruct Hc as [Hrow Hcol]. unfold GRID_SIZE in *.
  unfold Qle, Qlt. cbn [Qnum Qden]. destruct (Nat.even i); lia.
Qed.

Lemma forallb_nth (P : Cell -> bool) (draws : list Cell) :
  forallb P draws = true
  <-> forall j : nat, (j < List.length draws)%nat -> P (nth j draws (mkCell 0 0)) = true.
Proof.
  rewrite forallb_forall. split.
  - intros H j Hj. now apply H, nth_In.
  - intros H c Hc. apply (In_nth _ _ (mkCell 0 0)) in Hc as [j [Hj <-]]. now apply H.
Qed.

(** On the random numbers of a sequence of [k] draws the loop is still
    running after [k] iterations exactly when every draw hit the snake. *)
Lemma still_running_on_draws (snake0 draws : list Cell) :
  still_running (random_of_draws draws) (List.length draws) 0 snake0
  = forallb (some_segment snake0) draws.
Proof.
  apply eq_true_iff_eq.
  rewrite generateFood_running_iff, forallb_nth. split; intros H j Hj.
  - apply some_segment_In. rewrite <- sample_random_of_draws.
    replace (2 * j)%nat with (2 * j + 0)%nat by lia. now apply H.
  - rewrite Nat.add_0_r, sample_random_of_draws. now apply some_segment_In, H.
Qed.

Lemma sequences_length (k : nat) (draws : list Cell) :
  In draws (sequences k) -> List.length draws = k.
Proof.
  revert draws. induction k as [ | k IH]; intros draws Hin; cbn [sequences] in Hin.
  - destruct Hin as [<- | []]. reflexivity.
  - apply in_flat_map in Hin as [c [_ Hin]].
    apply in_map_iff in Hin as [rest [<- Hrest]]. simpl. f_equal. now apply IH.
Qed.

Lemma sequences_in_grid (k : nat) (draws : list Cell) :
  In draws (sequences k) -> Forall in_grid draws.
Proof.
  revert draws. induction k as [ | k IH]; intros draws Hin; cbn [sequences] in Hin.
  - destruct Hin as [<- | []]. constructor.
  - apply in_flat_map in Hin as [c [Hc Hin]].
    apply in_map_iff in Hin as [rest [<- Hrest]].
    constructor; [now apply In_grid_cells | now apply IH].
Qed.

Lemma count_prefixed (P : Cell -> bool) (seqs : list (list Cell)) (cells : list Cell) :
  List.length (filter (forallb P) (flat_map (fun c => map (cons c) seqs) cells))
  = (List.length (filter P cells) * List.length (filter (forallb P) seqs))%nat.
Proof.
  induction cells as [ | c cells IH]; [reflexivity | ].
  cbn [flat_map filter]. rewrite filter_app, length_app, IH.
  assert (Hhead : List.length (filter (forallb P) (map (cons c) seqs))
                  = if P c then List.length (filter (forallb P) seqs) else 0%nat).
  { clear IH. induction seqs as [ | s seqs IHs]; cbn [map filter forallb].
    - now destruct (P c).
    - destruct (P c); cbn [andb].
      + destruct (forallb P s); cbn [List.length]; now rewrite IHs.
      + exact IHs. }
  rewrite Hhead. destruct (P c); cbn [List.length]; lia.
Qed.

Lemma count_all (seqs : list (list Cell)) (cells : list Cell) :
  List.length (flat_map (fun c => map (cons c) seqs) cells)
  = (List.length cells * List.length seqs)%nat.
Proof.
  induction cells as [ | c cells IH]; [reflexivity | ].
  cbn [flat_map]. rewrite length_app, length_map, IH. simpl. lia.
Qed.

Lemma sequences_count (k : nat) :
  List.length (sequences k) = (Z.to_nat (GRID_SIZE * GRID_SIZE) ^ k)%nat.
Proof.
  induction k as [ | k IH]; [reflexivity | ].
  cbn [sequences]. rewrite count_all, IH, grid_cells_length.
  now rewrite Nat.pow_succ_r'.
Qed.

Lemma running_sequences_count (snake0 : list Cell) (k : nat) :
  List.length
    (filter (fun draws => still_running (random_of_draws draws) k 0 snake0)
            (sequences k))
  = (occupied_cells snake0 ^ k)%nat.
Proof.
  rewrite (filter_ext_in _ (forallb (some_segment snake0))).
  - induction k as [ | k IH]; [reflexivity | ].
    cbn [sequences]. rewrite count_prefixed, IH.
    now rewrite Nat.pow_succ_r'.
  - intros draws Hin. apply sequences_length in Hin. subst k.
    apply still_running_on_draws.
Qed.

Lemma filter_shorter (P : Cell -> bool) (c : Cell) (l : list Cell) :
  In c l -> P c = false -> (List.length (filter P l) < List.length l)%nat.
Proof.
  induction l as [ | x rest IH]; intros Hin Hc; [destruct Hin | ].
  cbn [filter]. pose proof (filter_length_le P rest) as Hle.
  destruct Hin as [-> | Hin].
  - rewrite Hc. simpl. lia.
  - specialize (IH Hin Hc). destruct (P x); simpl; lia.
Qed.

Lemma occupied_cells_below_all (snake0 : list Cell) :
  (exists c : Cell, free_cell snake0 c) ->
  (occupied_cells snake0 < Z.to_nat (GRID_SIZE * GRID_SIZE))%nat.
Proof.
  intros [c [Hgrid Hfree]]. unfold occupied_cells. rewrite <- grid_cells_length.
  apply filter_shorter with (c := c).
  - now apply In_grid_cells.
  - now apply some_segment_not_In.
Qed.

(** The loop of [generateFood] ends on a fair sequence of draws. *)
Lemma generateFood_finds_free_cell (random : RandomSource)
    (calls : nat) (snake0 : list Cell) :
  in_unit_interval random ->
  draws_every_cell random calls ->
  (exists c : Cell, free_cell snake0 c) ->
  exists (fuel : nat) (food0 : Cell) (calls' : nat),
    generateFood random fuel calls snake0 = Some (food0, calls')
    /\ free_cell snake0 food0
    /\ forall fuel' : nat, (fuel <= fuel')%nat ->
         generateFood random fuel' calls snake0 = Some (food0, calls').
Proof.
  intros Hunit Hfair [c [Hgrid Hfree]].
  destruct (Hfair c Hgrid) as [k Hk].
  assert (Hmiss : ~ In (sample random (2 * k + calls)) snake0) by now rewrite Hk.
  destruct (generateFood_stops random snake0 k calls Hmiss) as [food0 [calls' Hgen]].
  exists (S k), food0, calls'. split; [exact Hgen | ]. split.
  - pose proof Hgen as Hgen'.
    apply generateFood_returns in Hgen' as [j [_ [Hfood [_ [Hfree' _]]]]].
    split; [ | exact Hfree'].
    rewrite Hfood. now apply sample_in_grid.
  - intros fuel' Hle. now apply generateFood_more_fuel with (fuel := S k).
Qed.

(** Ninety-nine hundredths, multiplied often enough, fall below any share. *)
Lemma pow_99_100 (k : nat) : (99 ^ k * (99 + k) <= 99 * 100 ^ k)%nat.
Proof.
  induction k as [ | k IH]; [simpl; lia | ].
  rewrite !Nat.pow_succ_r'. nia.
Qed.

Lemma share_vanishes (occupied : nat) :
  (occupied < 100)%nat ->
  forall m : nat, exists k : nat, forall k' : nat,
    (k <= k')%nat -> (m * occupied ^ k' < 100 ^ k')%nat.
Proof.
  intros Hocc m. exists (99 * m)%nat. intros k' Hk'.
  assert (Hle : (occupied ^ k' <= 99 ^ k')%nat) by (apply Nat.pow_le_mono_l; lia).
  pose proof (pow_99_100 k') as Hbound.
  assert (Hpos : (0 < 99 ^ k')%nat) by (apply Nat.neq_0_lt_0, Nat.pow_nonzero; lia).
  nia.
Qed.

(** C9. Let the snake leave a cell of the grid free (as every snake of
    fewer than [GRID_SIZE * GRID_SIZE] segments does).  Then on random
    numbers in [0, 1) that bring up every cell of the grid sooner or later
    [generateFood] returns after finitely many iterations, and what it
    returns is a free cell of the grid.  The draws on which it does not
    return are rare: of the [100 ^ k] sequences of [k] draws (each given
    by random numbers in [0, 1)) the loop is still running after [k]
    iterations on [occupied ^ k], where
    [occupied < 100] is the number of cells on the snake, and this share
    falls below [1 / m] for every [m]. *)
Theorem C9_generateFood_terminates_on_a_free_cell (snake0 : list Cell) :
  ((List.length snake0 < Z.to_nat (GRID_SIZE * GRID_SIZE))%nat
   \/ exists c : Cell, free_cell snake0 c) ->
  (forall (random : RandomSource) (calls : nat),
     in_unit_interval random ->
     draws_every_cell random calls ->
     exists (fuel : nat) (food0 : Cell) (calls' : nat),
       generateFood random fuel calls snake0 = Some (food0, calls')
       /\ free_cell snake0 food0
       /\ forall fuel' : nat, (fuel <= fuel')%nat ->
            generateFood random fuel' calls snake0 = Some (food0, calls'))
  /\ (forall k : nat,
        List.length (sequences k) = (100 ^ k)%nat
        /\ (forall draws : list Cell,
              In draws (sequences k) -> in_unit_interval (random_of_draws draws))
        /\ List.length
             (filter (fun draws => still_running (random_of_draws draws) k 0 snake0)
                     (sequences k))
           = (occupied_cells snake0 ^ k)%nat)
  /\ (occupied_cells snake0 < 100)%nat
  /\ (forall m : nat, exists k : nat, forall k' : nat,
        (k <= k')%nat -> (m * occupied_cells snake0 ^ k' < 100 ^ k')%nat).
Proof.
  intros Hroom.
  assert (Hfree : exists c : Cell, free_cell snake0 c).
  { destruct Hroom as [Hshort | Hfree]; [ | exact Hfree].
    now apply short_snake_leaves_free_cell. }
  pose proof (occupied_cells_below_all snake0 Hfree) as Hocc.
  change (Z.to_nat (GRID_SIZE * GRID_SIZE)) with 100%nat in Hocc.
  split; [ | split; [ | split]].
  - intros random calls Hunit Hfair. now apply generateFood_finds_free_cell.
  - intros k. split; [ | split].
    + apply sequences_count.
    + intros draws Hin.
      now apply random_of_draws_in_unit_interval, sequences_in_grid with (k := k).
    + apply running_sequences_count.
  - exact Hocc.
  - now apply share_vanishes.
Qed.

(** ** The shape of the snake *)

(** [isCollision]: the cell is off the grid or on the snake given. *)
Lemma isCollision_spec (pos : Cell) (snake0 : list Cell) :
  isCollision pos snake0 = true <-> ~ in_grid pos \/ In pos snake0.
Proof.
  unfold isCollision, in_grid, GRID_SIZE.
  rewrite !orb_true_iff, Z.ltb_lt, !Z.geb_le, Z.ltb_lt, some_segment_In.
  split.
  - intros [[[[H | H] | H] | H] | H]; [left; lia | left; lia | left; lia | left; lia | now right].
  - intros [H | H]; [ | now right]. left.
    destruct (Z_lt_dec (row pos) 0); [tauto | ].
    destruct (Z_le_dec 10 (row pos)); [tauto | ].
    destruct (Z_lt_dec (col pos) 0); [tauto | ].
    destruct (Z_le_dec 10 (col pos)); [tauto | ].
    exfalso. apply H. lia.
Qed.

Lemma isCollision_clear (pos : Cell) (snake0 : list Cell) :
  isCollision pos snake0 = false <-> in_grid pos /\ ~ In pos snake0.
Proof.
  unfold isCollision, in_grid, GRID_SIZE.
  rewrite !orb_false_iff, !Z.geb_leb, !Z.ltb_ge, !Z.leb_gt, some_segment_not_In.
  intuition lia.
Qed.

Lemma NoDup_removelast (l : list Cell) : NoDup l -> NoDup (removelast l).
Proof.
  induction l as [ | x rest IH]; intros Hnd; [constructor | ].
  apply NoDup_cons_iff in Hnd as [Hx Hrest].
  destruct rest as [ | y rest']; [constructor | ].
  change (removelast (x :: y :: rest')) with (x :: removelast (y :: rest')).
  constructor; [ | now apply IH].
  intros Hin. apply Hx. now apply In_removelast.
Qed.

Lemma tick_snake_shape (host : Host) (fuel : nat) (w w' : World) :
  snake_shape w -> tick host fuel w = Some w' -> snake_shape w'.
Proof.
  intros [Hnd Hgrid] Htick. unfold snake_shape.
  destruct (snake w) as [ | head0 body] eqn:Hsnake.
  - unfold tick in Htick. rewrite Hsnake in Htick.
    assert (Hw' : w' = redraw w) by congruence.
    destruct (redraw_keeps w) as [Hs _].
    rewrite Hw', Hs, Hsnake. split; constructor.
  - assert (Hfresh : isCollision (next_head head0 (direction w)) body = false ->
                     in_grid (next_head head0 (direction w))
                     /\ ~ In (next_head head0 (direction w)) (head0 :: body)).
    { intros Hclear. apply isCollision_clear in Hclear as [Hin_grid Hbody].
      split; [assumption | ].
      intros [Hhead | Hin]; [ | contradiction].
      symmetry in Hhead. exact (next_head_moves head0 (direction w) Hhead). }
    destruct (tick_inv host fuel w w' head0 body Hsnake Htick)
      as [[_ ->] | [[Hclear [_ [Hs _]]] | [Hclear [_ [Hs _]]]]].
    + simpl. rewrite Hsnake. now split.
    + destruct (Hfresh Hclear) as [Hin_grid Hnew].
      rewrite Hs. split; constructor; assumption.
    + destruct (Hfresh Hclear) as [Hin_grid Hnew].
      rewrite Hs. split.
      * constructor; [ | now apply NoDup_removelast].
        intros Hin. apply Hnew. now apply In_removelast.
      * constructor; [assumption | ].
        rewrite Forall_forall in *. intros c Hc. now apply Hgrid, In_removelast.
Qed.

(** In every world of a game the segments of the snake are distinct cells
    of the grid. *)
Lemma reachable_snake_shape (host : Host) (w : World) :
  reachable host w -> snake_shape w.
Proof.
  induction 1 as [fuel fs w Hplay | fuel w ev w' Hreach IH Hstep].
  - apply playGame_invariant in Hplay as [Hsnake _].
    unfold snake_shape. rewrite Hsnake. split.
    + repeat constructor. intros [].
    + repeat constructor; unfold GRID_SIZE; simpl; lia.
  - unfold dispatch in Hstep. destruct (halted w).
    + now injection Hstep as <-.
    + destruct ev as [ | k | ].
      * destruct (gameLoop w).
        -- now apply tick_snake_shape with (host := host) (fuel := fuel) (w := w).
        -- now injection Hstep as <-.
      * injection Hstep as <-.
        destruct (keypress_keeps w k) as [Hs _].
        unfold snake_shape. now rewrite Hs.
      * destruct (prompting w); injection Hstep as <-; [ | assumption].
        destruct (prompt_answered_keeps host w) as [Hs _].
        unfold snake_shape. now rewrite Hs.
Qed.

(** Quitting with [q] stops the interval and saves nothing. *)
Lemma quit_saves_nothing (w : World) (k : Key) :
  is_literal (key_name k) "q" = true ->
  gameLoop (keypress w k) = false
  /\ exited (keypress w k) = true
  /\ saved (keypress w k) = saved w
  /\ console (keypress w k) = console w.
Proof.
  intros Hq. unfold keypress. rewrite Hq. simpl. tauto.
Qed.


(** ** The reference host at work *)

Lemma reference_random_in_unit_interval : in_unit_interval reference_random.
Proof.
  intros i. unfold reference_random.
  set (d := if Nat.even i then ((Nat.div2 i / 10) mod 10)%nat
            else (Nat.div2 i mod 10)%nat).
  assert (Hd : (d < 10)%nat).
  { unfold d. destruct (Nat.even i); apply Nat.mod_upper_bound; discriminate. }
  unfold Qle, Qlt. cbn [Qnum Qden]. lia.
Qed.

Lemma reference_random_draws_every_cell : draws_every_cell reference_random 0.
Proof.
  intros c Hgrid. apply In_grid_cells in Hgrid.
  exists (Z.to_nat (10 * row c + col c)).
  assert (Hall : forallb
            (fun c => same_cell c
               (sample reference_random (2 * Z.to_nat (10 * row c + col c) + 0)))
            grid_cells = true) by (vm_compute; reflexivity).
  rewrite forallb_forall in Hall.
  now apply same_cell_spec, Hall.
Qed.

Lemma run_reachable (host : Host) (fuel : nat) (events : list Event) :
  forall w w' : World,
    reachable host w -> run host fuel w events = Some w' -> reachable host w'.
Proof.
  induction events as [ | ev later IH]; intros w w' Hreach Hrun; simpl in Hrun.
  - now injection Hrun as <-.
  - destruct (dispatch host fuel w ev) as [w1 | ] eqn:Hstep; [ | discriminate].
    apply (IH w1 w'); [ | assumption].
    now apply reach_event with (fuel := fuel) (w := w) (ev := ev).
Qed.

Lemma C1_witness :
  tick reference_host 1 curled_world = Some (game_over reference_host curled_world).
Proof.
  apply (C1_collision_against_body_with_tail reference_host 1 curled_world
           (mkCell 0 0) [mkCell 0 1; mkCell 1 1; mkCell 1 0] eq_refl).
  reflexivity.
Defined.

Lemma C2_witness :
  exists w' : World,
    tick reference_host 1 feeding_world = Some w'
    /\ snake w' = [mkCell 5 6; mkCell 5 5]
    /\ points w' = 1.
Proof.
  pose proof (C2_grow_or_conserve reference_host 1 feeding_world (mkCell 5 5) []
                eq_refl eq_refl) as H.
  cbv zeta in H.
  destruct (tick reference_host 1 feeding_world) as [w' | ].
  - exists w'. split; [reflexivity | ].
    destruct H as [[_ [Hsnake [_ Hpoints]]] | [Hfood _]].
    + split; assumption.
    + exfalso. apply Hfood. reflexivity.
  - exfalso. destruct H as [_ Hgen]. vm_compute in Hgen. discriminate.
Defined.

Lemma C3_witness :
  exists w1 w2 : World,
    tick reference_host 1 corner_world = Some w1
    /\ console w1 = [GameOverLine 0]
    /\ run reference_host 1 corner_world [Tick; Keypress letter_q] = Some w2
    /\ exited w2 = true
    /\ saved w2 = None.
Proof.
  destruct (proj1 (C3_quit_at_the_prompt_loses_the_score reference_host 1)
              corner_world (mkCell 0 0) [] letter_q
              eq_refl eq_refl eq_refl eq_refl eq_refl)
    as [w1 [w2 [Htick [_ [Hconsole [_ [Hrun [Hexit [Hsaved _]]]]]]]]].
  exists w1, w2. repeat split; assumption.
Defined.

Lemma C4_witness :
  exists w' : World,
    tick reference_host 1 feeding_world = Some w'
    /\ ~ In (food w') (snake w').
Proof.
  destruct (tick reference_host 1 feeding_world) as [w' | ] eqn:Htick.
  - exists w'. split; [reflexivity | ].
    exact (proj1 (proj2 (proj1 (proj2 (C4_food_is_never_on_the_snake reference_host))
                    1%nat feeding_world w' (mkCell 5 5) [] eq_refl eq_refl eq_refl Htick))).
  - vm_compute in Htick. discriminate.
Defined.

Lemma started_world_reachable : reachable reference_host started_world.
Proof.
  apply reach_start with (fuel := 1%nat) (fs := None). reflexivity.
Qed.

Lemma C5_witness :
  exists w : World,
    reachable reference_host w
    /\ snake w = [mkCell 0 0; mkCell 0 1]
    /\ points w = 1
    /\ points w = Z.of_nat (List.length (snake w)) - 1.
Proof.
  assert (Hrun : exists w : World,
             run reference_host 5 started_world to_the_food = Some w
             /\ snake w = [mkCell 0 0; mkCell 0 1] /\ points w = 1).
  { vm_compute. eexists. repeat split. }
  destruct Hrun as [w [Hrun [Hsnake Hpoints]]].
  assert (Hreach : reachable reference_host w).
  { exact (run_reachable reference_host 5 to_the_food started_world w
             started_world_reachable Hrun). }
  exists w. repeat split; try assumption.
  exact (proj1 (C5_score_is_length_minus_one reference_host w Hreach)).
Defined.

Lemma C6_witness :
  lastDirection (keypress curled_world letter_w) = down.
Proof.
  exact (proj1 (proj2 (proj2 C6_reversal_is_rejected)) curled_world letter_w up
           eq_refl eq_refl).
Defined.

Lemma C7_witness :
  (exists result dropped : list JSON,
     saveHighScore reference_host (Some crowded_file) 4 "Gus"
       = Returns (Some (Reference.JSON_stringify (JArray result)))
     /\ Permutation (result ++ dropped)
          (crowded_table
             ++ [entry_to_json (mkEntry "Gus" 4 "2024-01-01T00:00:00.000Z")])
     /\ List.length result = 5%nat)
  /\ (exists (fs' : FileSystem) (table : list JSON),
        save_all reference_host None [3; 1; 4; 1; 5; 9; 2; 6] "Player" = Returns fs'
        /\ loadHighScores reference_host fs' = Returns (JArray table)
        /\ map score_key table = [9; 6; 5; 4; 3]).
Proof.
  split.
  - destruct (proj1 (C7_append_keeps_top_five reference_host)
                (Some crowded_file) crowded_table 4 "Gus"%string)
      as [result [dropped [Hsave [Hperm [_ [_ Hlen]]]]]].
    + vm_compute. reflexivity.
    + reflexivity.
    + exists result, dropped. repeat split; assumption.
  - destruct (proj2 (C7_append_keeps_top_five reference_host) "Player"%string)
      as [fs' [table [Hsave [Hload [Hscores _]]]]].
    + intros table Htable. cbn [tables_after In] in Htable.
      repeat (destruct Htable as [<- | Htable]; [vm_compute; reflexivity | ]).
      destruct Htable.
    + exists fs', table. repeat split; assumption.
Defined.

Lemma C8_witness :
  loadHighScores reference_host (Some "{ name: broken"%string) = Returns (JArray [])
  /\ loadHighScores reference_host None = Returns (JArray []).
Proof.
  split.
  - apply (proj2 (C8_load_never_raises reference_host (Some "{ name: broken"%string))).
    right. eexists. split; reflexivity.
  - apply (proj2 (C8_load_never_raises reference_host None)). now left.
Defined.

Lemma C9_witness :
  exists (fuel : nat) (food0 : Cell) (calls' : nat),
    generateFood reference_random fuel 0 [mkCell 0 0; mkCell 0 1] = Some (food0, calls')
    /\ free_cell [mkCell 0 0; mkCell 0 1] food0.
Proof.
  assert (Hroom : (List.length [mkCell 0 0; mkCell 0 1]
                   < Z.to_nat (GRID_SIZE * GRID_SIZE))%nat).
  { unfold GRID_SIZE. simpl. lia. }
  destruct (proj1 (C9_generateFood_terminates_on_a_free_cell
                     [mkCell 0 0; mkCell 0 1] (or_introl Hroom))
              reference_random 0%nat
              reference_random_in_unit_interval
              reference_random_draws_every_cell)
    as [fuel [food0 [calls' [Hgen [Hfree _]]]]].
  now exists fuel, food0, calls'.
Defined.

Lemma C10_witness :
  loadHighScores reference_host (Some crowded_file) = Returns (JArray crowded_table)
  /\ List.length crowded_table = 6%nat
  /\ map score_key crowded_table = [1; 5; 3; 9; 2; 7].
Proof.
  split; [ | split; reflexivity].
  apply (C10_load_returns_parsed_value_unchanged reference_host crowded_file
           (JArray crowded_table)).
  vm_compute. reflexivity.
Defined.

(** ** Runs on the reference host *)

(** The snake runs straight into the right wall and the player submits
    the default name: the game ends with score 0 and the file written
    holds the one entry of the player. *)
Example game_into_the_wall :
  exists (w : World) (file : string),
    run reference_host 1 started_world [Tick; Tick; Tick; Tick; Tick; Answered] = Some w
    /\ gameLoop w = false
    /\ snake w = [mkCell 5 9]
    /\ saved w = Some (Returns (Some file))
    /\ Reference.JSON_parse file
       = Some (JArray [entry_to_json (mkEntry "Player" 0 "2024-01-01T00:00:00.000Z")]).
Proof.
  assert (Hrun :
    option_map
      (fun w => (gameLoop w, snake w,
                 match saved w with
                 | Some (Returns (Some file)) => Reference.JSON_parse file
                 | _ => None
                 end))
      (run reference_host 1 started_world [Tick; Tick; Tick; Tick; Tick; Answered])
    = Some (false, [mkCell 5 9],
            Some (JArray [entry_to_json (mkEntry "Player" 0 "2024-01-01T00:00:00.000Z")])))
    by (vm_compute; reflexivity).
  destruct (run reference_host 1 started_world [Tick; Tick; Tick; Tick; Tick; Answered])
    as [w | ]; [ | discriminate].
  cbn [option_map] in Hrun.
  destruct (saved w) as [[[file | ] | e | ] | ] eqn:Hsaved; try discriminate.
  exists w, file. injection Hrun as Hloop Hsnake Hfile.
  repeat split; first [assumption | reflexivity].
Qed.

(** The same game, but the player starts the name with a [q]: the
    listener ends the process at that key, and the answer that follows
    saves nothing. *)
Example quit_at_the_prompt :
  option_map (fun w => (gameLoop w, exited w, saved w, console w))
    (run reference_host 1 corner_world [Tick; Keypress letter_q; Answered])
  = Some (false, true, None, [GameOverLine 0]).
Proof.
  vm_compute. reflexivity.
Qed.

(** Eight games in a row leave the five best scores in the file. *)
Example store_after_eight_games :
  exists file : string,
    save_all reference_host None [3; 1; 4; 1; 5; 9; 2; 6] "Player" = Returns (Some file)
    /\ option_map (fun v => match v with
                            | JArray items => map score_key items
                            | _ => []
                            end)
         (Reference.JSON_parse file)
       = Some [9; 6; 5; 4; 3].
Proof.
  eexists. split; vm_compute; reflexivity.
Qed.

(** A file holding an object is loaded as it is, and saving on top of it
    throws, since an object has no [push]. *)
Example store_holding_an_object :
  loadHighScores reference_host (Some "{}"%string) = Returns (JObject [])
  /\ saveHighScore reference_host (Some "{}"%string) 3 "Ann" = Throws TypeError.
Proof.
  split; reflexivity.
Qed.

(** An entry whose name is an object with a member [toString] is saved
    like any other, but cannot be shown: the first entry is printed, the
    second throws. *)
Example name_with_a_toString_member :
  let veiled :=
    [ entry_to_json (mkEntry "Ann" 4 "2024-01-01T00:00:00.000Z");
      JObject [("name", JObject [("toString", JNumber 0)]); ("score", JNumber 3)];
      entry_to_json (mkEntry "Bob" 2 "2024-01-02T00:00:00.000Z") ]%string in
  Reference.JSON_parse (Reference.JSON_stringify (JArray veiled)) = Some (JArray veiled)
  /\ forallb has_score veiled = true
  /\ showHighScores reference_host (Some (Reference.JSON_stringify (JArray veiled)))
     = ([ScoresHeader;
         EntryLine 1 (Some (JString "Ann")) (Some (JNumber 4))
           (Some (JString "2024-01-01T00:00:00.000Z"))],
        Some TypeError).
Proof.
  repeat split; vm_compute; reflexivity.
Qed.

(** The six entries of [crowded_file] come back cut to five and sorted
    only when a score is saved on top of them. *)
Example crowded_file_is_trimmed_on_save :
  exists file : string,
    saveHighScore reference_host (Some crowded_file) 4 "Gus" = Returns (Some file)
    /\ option_map (fun v => match v with
                            | JArray items => map score_key items
                            | _ => []
                            end)
         (Reference.JSON_parse file)
       = Some [9; 7; 5; 4; 3].
Proof.
  eexists. split; vm_compute; reflexivity.
Qed.

(* ================================================================== *)
(** * Further properties *)

(** ** What a game never does *)

Lemma redraw_nonempty (w : World) :
  snake w <> [] ->
  uncaught (redraw w) = uncaught w /\ rawMode (redraw w) = rawMode w
  /\ prompting (redraw w) = prompting w.
Proof.
  intros Hne. unfold redraw, displayGrid.
  destruct (snake w) as [ | head0 body]; [contradiction | ]. simpl. tauto.
Qed.

(** A run of the callback on a snake with a head ends the game or moves
    the snake and redraws. *)
Lemma tick_result (host : Host) (fuel : nat) (w w' : World) :
  snake w <> [] ->
  tick host fuel w = Some w' ->
  w' = game_over host w
  \/ exists (snake' : list Cell) (food' : Cell) (points' : Z) (calls' : nat),
       snake' <> [] /\ w' = redraw (moved w snake' food' points' calls').
Proof.
  intros Hne Htick. unfold tick in Htick.
  destruct (snake w) as [ | head0 body]; [contradiction | ].
  destruct (isCollision (next_head head0 (direction w)) body).
  - left. congruence.
  - right.
    destruct ((row (next_head head0 (direction w)) =? row (food w))
              && (col (next_head head0 (direction w)) =? col (food w))).
    + destruct (generateFood (Math_random host) fuel (random_calls w)
                  (next_head head0 (direction w) :: head0 :: body))
        as [[food' calls'] | ]; [ | discriminate].
      exists (next_head head0 (direction w) :: head0 :: body), food',
        (points w + 1), calls'.
      split; [discriminate | congruence].
    + exists (pop (next_head head0 (direction w) :: head0 :: body)), (food w),
        (points w), (random_calls w).
      split; [discriminate | congruence].
Qed.

Lemma running_world (w : World) :
  halted w = false -> exited w = false /\ uncaught w = None /\ saved w = None.
Proof.
  unfold halted. intros Hrun.
  destruct (exited w); [discriminate | ].
  destruct (uncaught w); [discriminate | ].
  destruct (saved w); [discriminate | ].
  repeat split.
Qed.

Lemma quit_process_invariant (w : World) :
  halted w = false -> process_invariant w -> process_invariant (quit w).
Proof.
  intros Hrun [Hdir [Hunc [Hloop [Hraw Hexit]]]].
  apply running_world in Hrun as [_ [_ Hsaved]].
  unfold process_invariant, quit.
  cbn [direction lastDirection uncaught saved gameLoop rawMode exited prompting].
  repeat split; auto; discriminate.
Qed.

Lemma keypress_process_invariant (w : World) (k : Key) :
  halted w = false -> process_invariant w -> process_invariant (keypress w k).
Proof.
  intros Hrun Hinv.
  unfold keypress. destruct (is_literal (key_name k) "q").
  - now apply quit_process_invariant.
  - destruct Hinv as [Hdir [Hunc [Hloop [Hraw Hexit]]]].
    unfold turn. destruct (newDirection k) as [d | ].
    + destruct (negb (isOppositeDirection d (lastDirection w))).
      * unfold process_invariant, halted in *.
        cbn [direction lastDirection uncaught saved gameLoop rawMode exited prompting].
        repeat split; auto; now apply Hloop.
      * repeat split; auto; now apply Hloop.
    + repeat split; auto; now apply Hloop.
Qed.

Lemma tick_process_invariant (host : Host) (fuel : nat) (w w' : World) :
  snake w <> [] -> halted w = false -> process_invariant w ->
  tick host fuel w = Some w' -> process_invariant w'.
Proof.
  intros Hne Hrun [Hdir [Hunc [Hloop [Hraw Hexit]]]] Htick.
  destruct (tick_result host fuel w w' Hne Htick)
    as [-> | [snake' [food' [points' [calls' [Hne' ->]]]]]].
  - unfold process_invariant, game_over.
    cbn [direction lastDirection uncaught saved gameLoop rawMode exited prompting].
    repeat split; auto; discriminate.
  - destruct (redraw_keeps (moved w snake' food' points' calls'))
      as [_ [_ [_ [Hd [Hl [_ [Hg [Hs [He _]]]]]]]]].
    destruct (redraw_nonempty (moved w snake' food' points' calls') Hne')
      as [Hu [Hr Hp]].
    unfold process_invariant, halted. rewrite Hd, Hl, Hu, Hr, Hg, Hs, He, Hp.
    cbn [direction lastDirection uncaught saved gameLoop rawMode exited prompting moved].
    unfold halted in Hloop.
    repeat split; auto; now apply Hloop.
Qed.

Lemma prompt_answered_process_invariant (host : Host) (w : World) :
  halted w = false -> prompting w = true -> process_invariant w ->
  process_invariant (prompt_answered host w).
Proof.
  intros Hrun Hprompt Hinv. unfold prompt_answered.
  destruct (mentions_q (prompt_answer host)); [now apply quit_process_invariant | ].
  destruct Hinv as [Hdir [Hunc [Hloop [Hraw Hexit]]]].
  assert (Hidle : gameLoop w = false).
  { destruct (gameLoop w); [ | reflexivity].
    destruct (Hloop eq_refl) as [_ Hno]. congruence. }
  apply running_world in Hrun as [Hexited [Huncaught _]].
  unfold process_invariant.
  cbn [direction lastDirection uncaught saved gameLoop rawMode exited prompting].
  split; [exact Hdir | ]. split; [ | split; [ | split]].
  - destruct (saveHighScore host (files w) (points w) (prompt_answer host)) as [fs | e | ].
    + now left.
    + right. now exists e.
    + now left.
  - rewrite Hidle. discriminate.
  - exact Hraw.
  - rewrite Hexited. discriminate.
Qed.

Lemma reachable_process_invariant (host : Host) (w : World) :
  reachable host w -> process_invariant w.
Proof.
  induction 1 as [fuel fs w Hplay | fuel w ev w' Hreach IH Hstep].
  - unfold playGame in Hplay.
    destruct (generateFood (Math_random host) fuel 0 INITIAL_SNAKE)
      as [[food0 calls] | ]; [ | discriminate].
    injection Hplay as <-. unfold process_invariant, halted. simpl.
    repeat split; auto; try discriminate.
  - pose proof (reachable_invariant host w Hreach) as [Hne _].
    unfold dispatch in Hstep. destruct (halted w) eqn:Hrun.
    + now injection Hstep as <-.
    + destruct ev as [ | k | ].
      * destruct (gameLoop w).
        -- now apply (tick_process_invariant host fuel w w').
        -- now injection Hstep as <-.
      * injection Hstep as <-. now apply keypress_process_invariant.
      * destruct (prompting w) eqn:Hprompt; injection Hstep as <-; [ | assumption].
        now apply prompt_answered_process_invariant.
Qed.


(** X2. The variables [direction] and [lastDirection] hold the same value
    at every moment of a game: each is only assigned together with the
    other. *)
Theorem X2_direction_equals_lastDirection (host : Host) (w : World) :
  reachable host w -> direction w = lastDirection w.
Proof.
  intros Hreach. now apply reachable_process_invariant in Hreach as [Hdir _].
Qed.

(** ** Food and snake on the grid *)

Lemma reachable_food_in_grid (host : Host) (w : World) :
  in_unit_interval (Math_random host) -> reachable host w -> in_grid (food w).
Proof.
  intros Hunit. induction 1 as [fuel fs w Hplay | fuel w ev w' Hreach IH Hstep].
  - unfold playGame in Hplay.
    destruct (generateFood (Math_random host) fuel 0 INITIAL_SNAKE)
      as [[food0 calls] | ] eqn:Hgen; [ | discriminate].
    injection Hplay as <-. simpl.
    apply generateFood_returns in Hgen as [k [_ [-> _]]].
    now apply sample_in_grid.
  - pose proof (reachable_invariant host w Hreach) as [Hne _].
    unfold dispatch in Hstep. destruct (halted w).
    + now injection Hstep as <-.
    + destruct ev as [ | k | ].
      * destruct (gameLoop w); [ | now injection Hstep as <-].
        destruct (snake w) as [ | head0 body] eqn:Hsnake; [contradiction | ].
        destruct (tick_inv host fuel w w' head0 body Hsnake Hstep)
          as [[_ ->] | [[_ [_ [_ [_ [calls' Hgen]]]]] | [_ [_ [_ [_ Hf]]]]]].
        -- exact IH.
        -- apply generateFood_returns in Hgen as [k [_ [-> _]]].
           now apply sample_in_grid.
        -- now rewrite Hf.
      * injection Hstep as <-. destruct (keypress_keeps w k) as [_ [Hf _]].
        now rewrite Hf.
      * destruct (prompting w); injection Hstep as <-; [ | exact IH].
        destruct (prompt_answered_keeps host w) as [_ [Hf _]].
        now rewrite Hf.
Qed.

(** Distinct cells of the grid number at most [GRID_SIZE * GRID_SIZE],
    and when they number that many they are all of the grid. *)
Lemma distinct_cells_bound (l : list Cell) :
  NoDup l -> Forall in_grid l ->
  (List.length l <= Z.to_nat (GRID_SIZE * GRID_SIZE))%nat.
Proof.
  intros Hnd Hgrid. rewrite <- grid_cells_length.
  apply NoDup_incl_length; [assumption | ].
  intros c Hc. apply In_grid_cells. rewrite Forall_forall in Hgrid. now apply Hgrid.
Qed.

Lemma full_grid_covered (l : list Cell) :
  NoDup l -> Forall in_grid l ->
  List.length l = Z.to_nat (GRID_SIZE * GRID_SIZE) ->
  forall c : Cell, in_grid c -> In c l.
Proof.
  intros Hnd Hgrid Hlen c Hc.
  apply (NoDup_length_incl Hnd (l' := grid_cells)).
  - rewrite grid_cells_length. lia.
  - intros c' Hc'. apply In_grid_cells. rewrite Forall_forall in Hgrid. now apply Hgrid.
  - now apply In_grid_cells.
Qed.

(** X3. During a game the segments of the snake are pairwise distinct
    cells of the grid: the snake never overlaps itself and never sticks
    out of the grid. *)
Theorem X3_snake_stays_distinct_on_grid (host : Host) (w : World) :
  reachable host w ->
  NoDup (snake w)
  /\ forall segment : Cell, In segment (snake w) ->
       0 <= row segment < GRID_SIZE /\ 0 <= col segment < GRID_SIZE.
Proof.
  intros Hreach. apply reachable_snake_shape in Hreach as [Hnd Hgrid].
  split; [exact Hnd | ]. rewrite Forall_forall in Hgrid. exact Hgrid.
Qed.

(** X4. When [Math.random] stays in [0, 1), the food is always a cell of
    the grid, and since it is never on the snake the snake has at most 99
    segments and the score is at most 98: the game has no way to fill the
    grid. *)
Theorem X4_food_on_grid_and_score_bounded (host : Host) (w : World) :
  in_unit_interval (Math_random host) ->
  reachable host w ->
  (0 <= row (food w) < GRID_SIZE /\ 0 <= col (food w) < GRID_SIZE)
  /\ (List.length (snake w) <= 99)%nat
  /\ points w <= 98.
Proof.
  intros Hunit Hreach.
  pose proof (reachable_food_in_grid host w Hunit Hreach) as Hfood.
  pose proof (reachable_snake_shape host w Hreach) as [Hnd Hgrid].
  pose proof (reachable_invariant host w Hreach) as [_ [Hscore Hoff]].
  assert (Hlen : (List.length (food w :: snake w) <= 100)%nat).
  { apply (distinct_cells_bound (food w :: snake w)); constructor; assumption. }
  simpl in Hlen. split; [exact Hfood | ]. split; lia.
Qed.

(** X5. Eating on the last free cell freezes the game: when the snake has
    99 distinct segments on the grid and its head moves onto the food, the
    snake then covers the grid, every draw of [generateFood] hits it, and
    the interval callback never returns, however long the loop runs. *)
Theorem X5_eating_the_last_free_cell_never_returns (host : Host) (w : World)
    (head0 : Cell) (body : list Cell) :
  in_unit_interval (Math_random host) ->
  snake w = head0 :: body ->
  NoDup (snake w) ->
  (forall segment : Cell, In segment (snake w) -> in_grid segment) ->
  List.length (snake w) = 99%nat ->
  isCollision (next_head head0 (direction w)) body = false ->
  next_head head0 (direction w) = food w ->
  forall fuel : nat, tick host fuel w = None.
Proof.
  intros Hunit Hsnake Hnd Hgrid Hlen Hclear Heat fuel.
  rewrite (tick_eat host fuel w head0 body Hsnake Hclear Heat).
  rewrite generateFood_starved; [reflexivity | ].
  intros k. apply full_grid_covered.
  - constructor; [ | exact Hnd].
    apply isCollision_clear in Hclear as [_ Hbody]. rewrite Hsnake.
    intros [Hhead | Hin]; [ | contradiction].
    symmetry in Hhead. exact (next_head_moves head0 (direction w) Hhead).
  - constructor; [ | now apply Forall_forall].
    now apply isCollision_clear in Hclear as [Hin _].
  - simpl. rewrite Hlen. reflexivity.
  - now apply sample_in_grid.
Qed.

(** ** What [generateFood] returns *)

(** X6. [generateFood] returns exactly the first drawn cell that is not on
    the snake, after two calls of [Math.random] per iteration: a result
    within [fuel] iterations is the [k]-th draw for some [k < fuel], all
    earlier draws lie on the snake, and the count of calls has advanced by
    [2 * (k + 1)]. *)
Theorem X6_generateFood_returns_first_free_draw (random : RandomSource)
    (fuel calls : nat) (snake0 : list Cell) (food0 : Cell) (calls' : nat) :
  generateFood random fuel calls snake0 = Some (food0, calls')
  <-> exists k : nat,
        (k < fuel)%nat
        /\ food0 = sample random (2 * k + calls)
        /\ calls' = (2 * S k + calls)%nat
        /\ ~ In food0 snake0
        /\ forall j : nat, (j < k)%nat -> In (sample random (2 * j + calls)) snake0.
Proof.
  split; [apply generateFood_returns | ].
  intros [k [Hk [Hfood [Hcalls [Hfree Hbefore]]]]].
  assert (Hmiss : ~ In (sample random (2 * k + calls)) snake0) by now rewrite <- Hfood.
  destruct (generateFood_stops random snake0 k calls Hmiss) as [food1 [calls1 Hgen]].
  pose proof Hgen as Hgen'.
  apply generateFood_returns in Hgen' as [j [Hj [Hfood1 [Hcalls1 [Hfree1 Hbefore1]]]]].
  assert (Hjk : j = k).
  { destruct (Nat.lt_trichotomy j k) as [Hlt | [Heq | Hgt]]; [ | exact Heq | ].
    - exfalso. apply Hfree1. rewrite Hfood1. now apply Hbefore.
    - exfalso. apply Hmiss. now apply Hbefore1. }
  subst j. rewrite Hfood, Hcalls, <- Hfood1, <- Hcalls1.
  apply generateFood_more_fuel with (fuel := S k); [exact Hgen | lia].
Qed.

(** ** Keys pressed in quick succession *)

Lemma next_head_back (c : Cell) (d : Direction) :
  next_head (next_head c d) (opposite d) = c.
Proof.
  destruct c as [r k], d; unfold next_head; simpl; f_equal; lia.
Qed.

(** X7. The guard against reversal compares with the last key accepted,
    not with the direction of the last move: a snake of two or more
    segments that has just moved in direction [d] is reversed by a
    sideways key followed by the key opposite to [d], both pressed before
    the next tick, and that tick ends the game on the snake's own neck. *)
Theorem X7_two_quick_turns_reverse_the_snake (host : Host) (fuel : nat) (w : World)
    (head0 neck : Cell) (rest : list Cell) (d side : Direction) (k1 k2 : Key) :
  snake w = head0 :: neck :: rest ->
  head0 = next_head neck d ->
  lastDirection w = d ->
  halted w = false ->
  gameLoop w = true ->
  is_literal (key_name k1) "q" = false ->
  newDirection k1 = Some side ->
  side <> d ->
  side <> opposite d ->
  is_literal (key_name k2) "q" = false ->
  newDirection k2 = Some (opposite d) ->
  exists w' : World,
    run host fuel w [Keypress k1; Keypress k2; Tick] = Some w'
    /\ direction w' = opposite d
    /\ next_head head0 (direction w') = neck
    /\ gameLoop w' = false
    /\ console w' = console w ++ [GameOverLine (points w)]
    /\ points w' = points w.
Proof.
  intros Hsnake Hhead Hlast Hrun Hloop Hq1 Hnew1 Hside Hside' Hq2 Hnew2.
  assert (Hopp1 : isOppositeDirection side (lastDirection w) = false).
  { rewrite Hlast. destruct (isOppositeDirection side d) eqn:H; [ | reflexivity].
    apply isOppositeDirection_spec in H. contradiction. }
  assert (Hopp2 : isOppositeDirection (opposite d) side = false).
  { destruct (isOppositeDirection (opposite d) side) eqn:H; [ | reflexivity].
    apply isOppositeDirection_spec in H. exfalso. apply Hside.
    destruct d, side; simpl in H; congruence. }
  assert (Hback : next_head head0 (opposite d) = neck).
  { rewrite Hhead. apply next_head_back. }
  unfold halted in Hrun.
  cbn [run]. unfold dispatch at 1. unfold halted at 1. rewrite Hrun.
  unfold keypress at 1. rewrite Hq1, Hnew1. unfold turn at 1. rewrite Hopp1.
  cbn [negb].
  unfold dispatch at 1. unfold halted at 1. cbn [exited uncaught saved]. rewrite Hrun.
  unfold keypress at 1. cbn [lastDirection]. rewrite Hq2, Hnew2.
  unfold turn at 1. cbn [lastDirection]. rewrite Hopp2. cbn [negb].
  unfold dispatch at 1. unfold halted at 1.
  cbn [exited uncaught saved gameLoop snake food points random_calls rawMode
       console files]. rewrite Hrun, Hloop.
  unfold tick. cbn [snake direction]. rewrite Hsnake, Hback.
  assert (Hhit : isCollision neck (neck :: rest) = true).
  { apply isCollision_spec. right. now left. }
  rewrite Hhit. eexists. split; [reflexivity | ].
  cbn [game_over direction gameLoop console points]. rewrite Hback. repeat split.
Qed.

(** X8. Pressing [q] during a game clears the interval and exits without
    printing anything and without calling [saveHighScore]; no later event
    has any effect. *)
Theorem X8_quitting_records_no_score (host : Host) (fuel : nat) (w : World) (k : Key) :
  halted w = false ->
  is_literal (key_name k) "q" = true ->
  exists w' : World,
    dispatch host fuel w (Keypress k) = Some w'
    /\ gameLoop w' = false
    /\ exited w' = true
    /\ saved w' = None
    /\ console w' = console w
    /\ points w' = points w
    /\ forall (fuel' : nat) (events : list Event), run host fuel' w' events = Some w'.
Proof.
  intros Hrun Hq. exists (keypress w k).
  assert (Hsaved : saved w = None).
  { unfold halted in Hrun. destruct (saved w); [ | reflexivity].
    now rewrite orb_true_r in Hrun. }
  unfold dispatch. rewrite Hrun. split; [reflexivity | ].
  unfold keypress. rewrite Hq. unfold quit. cbn.
  repeat split; try assumption.
  intros fuel' events. apply run_halted. reflexivity.
Qed.

(** ** Where a new entry lands in the table *)

Section RankFacts.

Context {A : Type} (key : A -> Z).

(** Sorting leaves a descending list as it is. *)
Lemma Array_sort_descending_fixed (l : list A) :
  descending key l -> Array_sort key l = l.
Proof.
  unfold descending. induction l as [ | x rest IH]; intros Hsorted; [reflexivity | ].
  apply StronglySorted_inv in Hsorted as [Hrest Hx].
  cbn [Array_sort]. rewrite (IH Hrest).
  destruct rest as [ | y rest']; [reflexivity | ].
  cbn [sort_insert]. unfold compareFn.
  apply Forall_inv in Hx.
  destruct (key y - key x <=? 0) eqn:Hcmp; [reflexivity | ].
  apply Z.leb_gt in Hcmp. lia.
Qed.

(** Inserting from the front and inserting from behind do not disturb
    each other. *)
Lemma sort_insert_insert_behind (x e : A) (l : list A) :
  sort_insert key x (insert_behind key e l)
  = insert_behind key e (sort_insert key x l).
Proof.
  induction l as [ | y rest IH];
    repeat (cbn [insert_behind sort_insert]; unfold compareFn; compare_keys);
    try reflexivity; try lia.
  now rewrite IH.
Qed.

(** The entry pushed last is sorted behind its equals. *)
Lemma Array_sort_pushed (l : list A) (e : A) :
  Array_sort key (l ++ [e]) = insert_behind key e (Array_sort key l).
Proof.
  induction l as [ | x rest IH]; [reflexivity | ].
  cbn [app Array_sort]. rewrite IH. apply sort_insert_insert_behind.
Qed.

(** In a descending list the elements not beaten by [e] come first, and
    [e] is inserted right behind them. *)
Lemma insert_behind_split (e : A) (l : list A) :
  descending key l ->
  exists front back : list A,
    l = front ++ back
    /\ insert_behind key e l = front ++ e :: back
    /\ List.length front = not_beaten_by key e l.
Proof.
  unfold descending, not_beaten_by.
  induction l as [ | y rest IH]; intros Hsorted.
  - exists [], []. repeat split.
  - apply StronglySorted_inv in Hsorted as [Hrest Hy].
    cbn [insert_behind filter]. destruct (key y <? key e) eqn:Hye.
    + apply Z.ltb_lt in Hye. exists [], (y :: rest). repeat split.
      assert (Hy' : (key e <=? key y) = false) by (apply Z.leb_gt; lia).
      rewrite Hy'. cbn [List.length].
      assert (Hnone : filter (fun a => key e <=? key a) rest = []).
      { clear IH Hrest. induction rest as [ | z rest' IHr]; [reflexivity | ].
        cbn [filter]. pose proof (Forall_inv Hy) as Hz. cbv beta in Hz.
        assert (Hz' : (key e <=? key z) = false) by (apply Z.leb_gt; lia).
        rewrite Hz'. apply IHr. now apply Forall_inv_tail in Hy. }
      now rewrite Hnone.
    + apply Z.ltb_ge in Hye.
      destruct (IH Hrest) as [front [back [Hl [Hins Hlen]]]].
      exists (y :: front), back.
      assert (Hy' : (key e <=? key y) = true) by (apply Z.leb_le; lia).
      rewrite Hy'. cbn [List.length app]. repeat split; congruence.
Qed.

Lemma not_beaten_by_perm (e : A) (l l' : list A) :
  Permutation l l' -> not_beaten_by key e l = not_beaten_by key e l'.
Proof.
  unfold not_beaten_by. induction 1 as [ | x l l' Hperm IH | x y l | l l' l'' H1 IH1 H2 IH2].
  - reflexivity.
  - cbn [filter]. destruct (key e <=? key x); cbn [List.length]; now rewrite IH.
  - cbn [filter]. destruct (key e <=? key x), (key e <=? key y); reflexivity.
  - congruence.
Qed.

(** Where [push], [sort], [splice (5)] leave the new entry. *)
Lemma push_sort_splice_rank (table : list A) (entry : A) :
  let n := not_beaten_by key entry table in
  ((5 <= n)%nat ->
     push_sort_splice key table entry = firstn 5 (Array_sort key table))
  /\ ((n < 5)%nat ->
     nth_error (push_sort_splice key table entry) n = Some entry).
Proof.
  intros n. unfold push_sort_splice. rewrite Array_sort_pushed.
  destruct (insert_behind_split entry (Array_sort key table)
              (Array_sort_descending key table))
    as [front [back [Hl [Hins Hlen]]]].
  rewrite (not_beaten_by_perm entry _ _ (Array_sort_perm key table)) in Hlen.
  fold n in Hlen. rewrite Hins, Hl. split; intros Hn.
  - rewrite !firstn_app. replace (5 - List.length front)%nat with 0%nat by lia.
    reflexivity.
  - rewrite nth_error_firstn.
    destruct (Nat.ltb_spec n 5) as [_ | Hge]; [ | lia].
    rewrite nth_error_app2 by lia.
    replace (n - List.length front)%nat with 0%nat by lia. reflexivity.
Qed.

(** On a descending table nothing is reordered. *)
Lemma push_sort_splice_sorted (table : list A) (entry : A) :
  descending key table ->
  push_sort_splice key table entry = firstn 5 (insert_behind key entry table)
  /\ (List.length table = 5%nat ->
      (forall a : A, In a table -> key entry <= key a) ->
      push_sort_splice key table entry = table).
Proof.
  intros Hsorted. unfold push_sort_splice.
  rewrite Array_sort_pushed, (Array_sort_descending_fixed table Hsorted).
  split; [reflexivity | ].
  intros Hlen Hall.
  destruct (insert_behind_split entry table Hsorted)
    as [front [back [Hl [Hins Hfront]]]].
  assert (Hcount : not_beaten_by key entry table = List.length table).
  { unfold not_beaten_by. f_equal. apply forallb_filter_id.
    apply forallb_forall. intros a Ha. apply Z.leb_le. now apply Hall. }
  assert (Hback : back = []).
  { pose proof (f_equal (@List.length A) Hl) as Hsum. rewrite length_app in Hsum.
    destruct back; [reflexivity | simpl in Hsum; lia]. }
  subst back. rewrite app_nil_r in Hl. subst front.
  rewrite Hins, <- Hlen, firstn_app, Nat.sub_diag, firstn_all.
  apply app_nil_r.
Qed.

End RankFacts.

(** X9. Where [saveHighScore] puts the new entry: count the entries of
    the loaded table whose score is at least the new one.  When they are
    five or more the new entry is cut off and the table written is the
    first five of the old entries in order of score; otherwise the new
    entry stands right behind them in the table written.  On equal scores
    the entry already there wins. *)
Theorem X9_new_entry_ranks_behind_its_equals (host : Host) (fs : FileSystem)
    (items : list JSON) (final_score : Z) (player : string) :
  loadHighScores host fs = Returns (JArray items) ->
  forallb has_score items = true ->
  let entry := entry_to_json (mkEntry player final_score (Date_toISOString host)) in
  let n := List.length (filter (fun v => final_score <=? score_key v) items) in
  exists table : list JSON,
    saveHighScore host fs final_score player
      = Returns (Some (JSON_stringify host (JArray table)))
    /\ ((5 <= n)%nat -> table = firstn 5 (Array_sort score_key items))
    /\ ((n < 5)%nat -> nth_error table n = Some entry).
Proof.
  intros Hload Hscores entry n.
  exists (push_sort_splice score_key items entry).
  split; [exact (saveHighScore_array host fs items final_score player Hload Hscores) | ].
  exact (push_sort_splice_rank score_key items entry).
Qed.

(** X10. On a loaded table that is already in descending order, as
    [saveHighScore] leaves it, saving reorders nothing: the table written
    is the old one with the new entry slipped in behind the entries it
    does not beat, cut to the first five.  So a full table of five is
    written back exactly as it was when the new score beats none of its
    entries. *)
Theorem X10_sorted_table_keeps_its_order (host : Host) (fs : FileSystem)
    (items : list JSON) (final_score : Z) (player : string) :
  loadHighScores host fs = Returns (JArray items) ->
  forallb has_score items = true ->
  descending score_key items ->
  let entry := entry_to_json (mkEntry player final_score (Date_toISOString host)) in
  saveHighScore host fs final_score player
    = Returns (Some (JSON_stringify host
        (JArray (firstn 5 (insert_behind score_key entry items)))))
  /\ (List.length items = 5%nat ->
      (forall v : JSON, In v items -> final_score <= score_key v) ->
      saveHighScore host fs final_score player
        = Returns (Some (JSON_stringify host (JArray items)))).
Proof.
  intros Hload Hscores Hsorted entry.
  pose proof (saveHighScore_array host fs items final_score player Hload Hscores)
    as Hsave.
  fold entry in Hsave.
  destruct (push_sort_splice_sorted score_key items entry Hsorted) as [Hkept Hfull].
  split.
  - now rewrite Hsave, Hkept.
  - intros Hlen Hall. now rewrite Hsave, (Hfull Hlen Hall).
Qed.

(** ** Saving on whatever the file holds *)

Lemma has_score_spec (v : JSON) :
  has_score v = true ->
  v <> JNull /\ property "score" v = Some (JNumber (score_key v)).
Proof.
  unfold has_score, score_key, score_member, property.
  destruct v as [ | b | n | s | items | members]; try discriminate.
  destruct (member "score" members) as [[ | b | n | s | items | ms] | ];
    try discriminate.
  intros _. split; [discriminate | reflexivity].
Qed.

(** X11. On a file that is absent or that [JSON.parse] refuses,
    [saveHighScore] starts from the empty table: the file it writes holds
    the new entry and nothing else, so whatever text was there is lost. *)
Theorem X11_save_replaces_an_unreadable_file (host : Host) (fs : FileSystem)
    (final_score : Z) (player : string) :
  fs = None \/ (exists data, fs = Some data /\ JSON_parse host data = None) ->
  saveHighScore host fs final_score player
  = Returns (Some (JSON_stringify host
      (JArray [entry_to_json (mkEntry player final_score (Date_toISOString host))]))).
Proof.
  intros Hbroken.
  assert (Hload : loadHighScores host fs = Returns (JArray [])).
  { destruct Hbroken as [-> | [data [-> Hparse]]].
    - apply loadHighScores_absent.
    - now apply loadHighScores_unparsable. }
  now rewrite (saveHighScore_array host fs [] final_score player Hload eq_refl).
Qed.

(** X12. On a file that parses to anything but an array, [saveHighScore]
    throws a [TypeError] at [push] and writes nothing.  After a lost game
    this is how the awaited save ends once the prompt is answered: the
    rejection leaves the callback, nothing catches it, and nothing more is
    printed. *)
Theorem X12_save_on_a_non_array_throws (host : Host) (data : string) (v : JSON) :
  JSON_parse host data = Some v ->
  (forall items : list JSON, v <> JArray items) ->
  (forall (final_score : Z) (player : string),
     saveHighScore host (Some data) final_score player = Throws TypeError)
  /\ (forall (fuel : nat) (w : World),
        files w = Some data ->
        halted w = false ->
        prompting w = true ->
        mentions_q (prompt_answer host) = false ->
        exists w' : World,
          dispatch host fuel w Answered = Some w'
          /\ saved w' = Some (Throws TypeError)
          /\ uncaught w' = Some TypeError
          /\ console w' = console w).
Proof.
  intros Hparse Hother.
  assert (Hsave : forall final_score player,
             saveHighScore host (Some data) final_score player = Throws TypeError).
  { intros final_score player. unfold saveHighScore.
    rewrite (loadHighScores_parsed host data v Hparse). simpl.
    destruct v; try reflexivity. exfalso. now apply (Hother items). }
  split; [exact Hsave | ].
  intros fuel w Hfiles Hrun Hprompt Hq.
  exists (prompt_answered host w).
  unfold dispatch. rewrite Hrun, Hprompt. split; [reflexivity | ].
  unfold prompt_answered. rewrite Hq, Hfiles, Hsave. repeat split.
Qed.

(** X13. Save, then load: on a table of scored entries, and with a
    [JSON.parse] that reads back what [JSON.stringify] wrote,
    [loadHighScores] after [saveHighScore] returns exactly the five best
    of the table with the new entry, and these are again scored entries,
    ready for the next save. *)
Theorem X13_save_then_load (host : Host) (fs : FileSystem) (items : list JSON)
    (final_score : Z) (player : string) :
  loadHighScores host fs = Returns (JArray items) ->
  forallb has_score items = true ->
  let table :=
    push_sort_splice score_key items
      (entry_to_json (mkEntry player final_score (Date_toISOString host))) in
  JSON_parse host (JSON_stringify host (JArray table)) = Some (JArray table) ->
  exists file : string,
    saveHighScore host fs final_score player = Returns (Some file)
    /\ loadHighScores host (Some file) = Returns (JArray table)
    /\ forallb has_score table = true
    /\ (List.length table <= 5)%nat.
Proof.
  intros Hload Hscores table Hback.
  exists (JSON_stringify host (JArray table)). repeat split.
  - exact (saveHighScore_array host fs items final_score player Hload Hscores).
  - now apply loadHighScores_parsed.
  - now apply push_sort_splice_has_score.
  - unfold table, push_sort_splice. rewrite length_firstn. apply Nat.le_min_l.
Qed.

(** X14. [resetHighScores] writes the empty table whatever the file held:
    with a [JSON.parse] that reads [JSON.stringify ([])] back as the empty
    array, loading afterwards gives the empty array, [showHighScores]
    prints that there are no scores, and the next [saveHighScore] leaves a
    table of exactly one entry. *)
Theorem X14_reset_empties_the_table (host : Host) (fs : FileSystem) :
  JSON_parse host (JSON_stringify host (JArray [])) = Some (JArray []) ->
  loadHighScores host (resetHighScores host fs) = Returns (JArray [])
  /\ showHighScores host (resetHighScores host fs) = ([NoScoresYet], None)
  /\ forall (final_score : Z) (player : string),
       saveHighScore host (resetHighScores host fs) final_score player
       = Returns (Some (JSON_stringify host
           (JArray [entry_to_json (mkEntry player final_score (Date_toISOString host))]))).
Proof.
  intros Hback. unfold resetHighScores.
  pose proof (loadHighScores_parsed host _ _ Hback) as Hload.
  split; [exact Hload | ]. split.
  - unfold showHighScores. now rewrite Hload.
  - intros final_score player.
    now rewrite (saveHighScore_array host _ [] final_score player Hload eq_refl).
Qed.

(** ** Showing the table *)

Lemma forEach_log_printable (index : Z) (v : JSON) (rest : list JSON) :
  printable v = true ->
  forEach_log index (v :: rest)
  = let (lines, thrown) := forEach_log (index + 1) rest in
    (EntryLine (index + 1) (property "name" v) (property "score" v) (property "date" v)
       :: lines, thrown).
Proof.
  intros Hv. cbn [forEach_log].
  destruct v; try discriminate; unfold printable in Hv; now rewrite Hv.
Qed.

Lemma forEach_log_unprintable (index : Z) (v : JSON) (rest : list JSON) :
  printable v = false ->
  forEach_log index (v :: rest) = ([], Some TypeError).
Proof.
  intros Hv. cbn [forEach_log].
  destruct v; try reflexivity; unfold printable in Hv; now rewrite Hv.
Qed.

Lemma forEach_log_entries (items : list JSON) :
  forallb printable items = true ->
  forall index : Z,
    exists lines : list StoreLine,
      forEach_log index items = (lines, None)
      /\ shown_ranks lines
         = map (fun i => index + 1 + Z.of_nat i) (seq 0 (List.length items))
      /\ shown_scores lines = map (property "score") items
      /\ List.length lines = List.length items.
Proof.
  induction items as [ | v rest IH]; intros Hitems index.
  - exists []. repeat split.
  - cbn [forallb] in Hitems. apply andb_prop in Hitems as [Hv Hrest].
    destruct (IH Hrest (index + 1)) as [lines [Hlog [Hranks [Hscores Hlen]]]].
    exists (EntryLine (index + 1) (property "name" v) (property "score" v)
              (property "date" v) :: lines).
    rewrite (forEach_log_printable index v rest Hv), Hlog.
    split; [reflexivity | ].
    cbn [shown_ranks shown_scores List.length seq map]. rewrite Hranks, Hscores, Hlen.
    split; [ | split; reflexivity].
    f_equal; [lia | ]. rewrite <- seq_shift, map_map.
    apply map_ext. intros i. lia.
Qed.

Lemma forEach_log_stops (before after : list JSON) (bad : JSON) :
  forallb printable before = true ->
  printable bad = false ->
  forall index : Z,
    exists lines : list StoreLine,
      forEach_log index (before ++ bad :: after) = (lines, Some TypeError)
      /\ shown_scores lines = map (property "score") before
      /\ List.length lines = List.length before.
Proof.
  intros Hbefore Hbad.
  induction before as [ | v rest IH]; intros index.
  - exists []. cbn [app]. rewrite (forEach_log_unprintable index bad after Hbad).
    repeat split.
  - cbn [forallb] in Hbefore. apply andb_prop in Hbefore as [Hv Hrest].
    destruct (IH Hrest (index + 1)) as [lines [Hlog [Hscores Hlen]]].
    exists (EntryLine (index + 1) (property "name" v) (property "score" v)
              (property "date" v) :: lines).
    cbn [app]. rewrite (forEach_log_printable index v _ Hv), Hlog.
    split; [reflexivity | ].
    cbn [shown_scores map List.length]. now rewrite Hscores, Hlen.
Qed.

(** X15. [showHighScores] prints the one line that there are no scores, and
    throws nothing, when the file is absent, when [JSON.parse] refuses
    it, and when it holds the empty array. *)
Theorem X15_show_without_scores (host : Host) (fs : FileSystem) :
  fs = None
  \/ (exists data, fs = Some data
        /\ (JSON_parse host data = None \/ JSON_parse host data = Some (JArray []))) ->
  showHighScores host fs = ([NoScoresYet], None).
Proof.
  intros [-> | [data [-> [Hparse | Hparse]]]]; unfold showHighScores.
  - now rewrite loadHighScores_absent.
  - now rewrite (loadHighScores_unparsable host data Hparse).
  - now rewrite (loadHighScores_parsed host data _ Hparse).
Qed.

(** X16. On a file holding a non-empty array whose elements can all be
    printed (none is [null], and the [name], [score] and [date] of each
    convert to strings), [showHighScores] throws nothing and prints the
    header followed by one line per element, in the order of the file,
    ranked 1, 2, 3, ... and showing each element's [score]. *)
Theorem X16_show_lists_the_file_in_order (host : Host) (data : string) (items : list JSON) :
  JSON_parse host data = Some (JArray items) ->
  items <> [] ->
  forallb printable items = true ->
  exists lines : list StoreLine,
    showHighScores host (Some data) = (ScoresHeader :: lines, None)
    /\ shown_ranks lines = map Z.of_nat (seq 1 (List.length items))
    /\ shown_scores lines = map (property "score") items.
Proof.
  intros Hparse Hne Hitems.
  destruct (forEach_log_entries items Hitems 0) as [lines [Hlog [Hranks [Hscores _]]]].
  exists lines. unfold showHighScores.
  rewrite (loadHighScores_parsed host data _ Hparse).
  unfold show_table. cbn [no_length].
  destruct items as [ | v rest]; [contradiction | ].
  rewrite Hlog. split; [reflexivity | ]. split; [ | exact Hscores].
  rewrite Hranks, <- seq_shift, map_map. apply map_ext. intros i. lia.
Qed.

(** X17. The first element of the array that cannot be printed stops
    [showHighScores]: a [null], whose [name] cannot be read, or an element
    whose [name], [score] or [date] does not convert to a string, such as
    an object with a member [toString].  The header and the lines of the
    elements before it are printed, then a [TypeError] is thrown and
    nothing that follows is shown. *)
Theorem X17_show_stops_at_the_first_bad_entry (host : Host) (data : string)
    (before after : list JSON) (bad : JSON) :
  JSON_parse host data = Some (JArray (before ++ bad :: after)) ->
  forallb printable before = true ->
  printable bad = false ->
  exists lines : list StoreLine,
    showHighScores host (Some data) = (ScoresHeader :: lines, Some TypeError)
    /\ shown_scores lines = map (property "score") before
    /\ List.length lines = List.length before.
Proof.
  intros Hparse Hbefore Hbad.
  destruct (forEach_log_stops before after bad Hbefore Hbad 0)
    as [lines [Hlog [Hscores Hlen]]].
  exists lines. unfold showHighScores.
  rewrite (loadHighScores_parsed host data _ Hparse).
  unfold show_table. cbn [no_length].
  destruct before as [ | v rest]; cbn [app] in *; rewrite Hlog; now repeat split.
Qed.

(** X18. On a file that parses to something other than an array,
    [showHighScores] goes by the value's [length]: a boolean, a number or
    an object without a true [length] is reported as no scores at all; a
    non-empty string or an object with a true [length] gets the header and
    then a [TypeError], since it has no [forEach]; [null] throws at once. *)
Theorem X18_show_on_other_values (host : Host) (data : string) (v : JSON) :
  JSON_parse host data = Some v ->
  (forall items : list JSON, v <> JArray items) ->
  showHighScores host (Some data)
  = match v with
    | JNull => ([], Some TypeError)
    | JBool _ => ([NoScoresYet], None)
    | JNumber _ => ([NoScoresYet], None)
    | JString s =>
        if String.eqb s "" then ([NoScoresYet], None)
        else ([ScoresHeader], Some TypeError)
    | JObject members =>
        match member "length" members with
        | Some x =>
            if truthy x then ([ScoresHeader], Some TypeError)
            else ([NoScoresYet], None)
        | None => ([NoScoresYet], None)
        end
    | JArray _ => ([], None)
    end.
Proof.
  intros Hparse Hother. unfold showHighScores.
  rewrite (loadHighScores_parsed host data v Hparse).
  unfold show_table.
  destruct v as [ | b | n | s | items | members]; cbn [no_length]; try reflexivity.
  - exfalso. now apply (Hother items).
  - destruct (member "length" members) as [x | ]; [ | reflexivity].
    now destruct (truthy x).
Qed.

(** X19. Save, then show: on a table of entries that have numeric scores
    and can be printed, and with a [JSON.parse] that reads back what
    [JSON.stringify] wrote, [showHighScores] after [saveHighScore] throws
    nothing and lists at most five entries, ranked from 1, whose scores
    run in descending order. *)
Theorem X19_save_then_show (host : Host) (fs : FileSystem) (items : list JSON)
    (final_score : Z) (player : string) :
  loadHighScores host fs = Returns (JArray items) ->
  forallb has_score items = true ->
  forallb printable items = true ->
  let table :=
    push_sort_splice score_key items
      (entry_to_json (mkEntry player final_score (Date_toISOString host))) in
  JSON_parse host (JSON_stringify host (JArray table)) = Some (JArray table) ->
  exists (file : string) (lines : list StoreLine),
    saveHighScore host fs final_score player = Returns (Some file)
    /\ showHighScores host (Some file) = (ScoresHeader :: lines, None)
    /\ shown_ranks lines = map Z.of_nat (seq 1 (List.length table))
    /\ shown_scores lines = map (fun v => Some (JNumber (score_key v))) table
    /\ (List.length lines <= 5)%nat
    /\ descending score_key table.
Proof.
  intros Hload Hscores Hprint table Hback.
  pose proof (push_sort_splice_has_score items
                (mkEntry player final_score (Date_toISOString host)) Hscores) as Htable.
  fold table in Htable.
  assert (Hprintable : forallb printable table = true).
  { apply (push_sort_splice_forallb printable); [exact Hprint | reflexivity]. }
  destruct (forEach_log_entries table Hprintable 0)
    as [lines [Hlog [Hranks [Hshown Hlines]]]].
  exists (JSON_stringify host (JArray table)), lines.
  destruct (push_sort_splice_spec score_key items
              (entry_to_json (mkEntry player final_score (Date_toISOString host))))
    as [_ [Hdesc [_ Hlen]]].
  fold table in Hdesc, Hlen.
  repeat split.
  - exact (saveHighScore_array host fs items final_score player Hload Hscores).
  - unfold showHighScores. rewrite (loadHighScores_parsed host _ _ Hback).
    unfold show_table. cbn [no_length].
    destruct table as [ | v rest] eqn:Htab.
    + unfold table, push_sort_splice in Htab.
      pose proof (Permutation_length
                    (Array_sort_perm score_key
                       (items ++ [entry_to_json
                                    (mkEntry player final_score (Date_toISOString host))])))
        as Hp.
      rewrite length_app in Hp. simpl in Hp.
      destruct (Array_sort score_key _); [simpl in Hp; lia | discriminate].
    + now rewrite Hlog.
  - rewrite Hranks, <- seq_shift, map_map. apply map_ext. intros i. lia.
  - rewrite Hshown. apply map_ext_in. intros v Hv.
    rewrite forallb_forall in Htable. now apply has_score_spec, Htable.
  - rewrite Hlines, Hlen. apply Nat.le_min_l.
  - exact Hdesc.
Qed.

(** ** What [displayGrid] draws *)

Lemma drawn_glyphs_rows (f : Z -> list Glyph) (rows : list Z) (after : list ConsoleLine) :
  drawn_glyphs (map (fun r => GridRow (f r)) rows ++ after)
  = flat_map f rows ++ drawn_glyphs after.
Proof.
  induction rows as [ | r rows IH]; [reflexivity | ].
  cbn [map app drawn_glyphs flat_map]. now rewrite IH, app_assoc.
Qed.

Lemma map_over_grid (g : Cell -> Glyph) (rows cols : list Z) :
  flat_map (fun r => map (fun c => g (mkCell r c)) cols) rows
  = map g (flat_map (fun r => map (mkCell r) cols) rows).
Proof.
  induction rows as [ | r rows IH]; [reflexivity | ].
  cbn [flat_map]. now rewrite map_app, map_map, IH.
Qed.

(** The glyphs drawn are those of the cells of the grid, row by row. *)
Lemma drawn_glyphs_displayGrid (head0 : Cell) (body : list Cell) (food0 : Cell) :
  drawn_glyphs (fst (displayGrid (head0 :: body) food0))
  = map (fun c => glyph_at head0 (head0 :: body) food0 (row c) (col c)) grid_cells.
Proof.
  unfold displayGrid. cbn [fst drawn_glyphs].
  rewrite drawn_glyphs_rows. cbn [drawn_glyphs]. rewrite app_nil_r.
  unfold grid_cells.
  exact (map_over_grid
           (fun c => glyph_at head0 (head0 :: body) food0 (row c) (col c))
           indices indices).
Qed.

Lemma count_mapped (A : Type) (p : Glyph -> bool) (g : A -> Glyph) (l : list A) :
  List.length (filter p (map g l)) = List.length (filter (fun a => p (g a)) l).
Proof.
  induction l as [ | a l IH]; [reflexivity | ].
  cbn [map filter]. destruct (p (g a)); cbn [List.length]; now rewrite IH.
Qed.

(** Distinct cells of the grid are found on the grid as often as they are. *)
Lemma count_members (cells : list Cell) :
  NoDup cells -> Forall in_grid cells ->
  List.length (filter (some_segment cells) grid_cells) = List.length cells.
Proof.
  intros Hnd Hgrid. apply Permutation_length, NoDup_Permutation.
  - apply NoDup_filter, grid_cells_NoDup.
  - exact Hnd.
  - intros c. rewrite filter_In, some_segment_In, In_grid_cells.
    rewrite Forall_forall in Hgrid. split; [tauto | auto].
Qed.

Lemma glyph_partition (l : list Glyph) :
  List.length l
  = (List.length (filter (Glyph_eqb HeadGlyph) l)
     + List.length (filter (Glyph_eqb BodyGlyph) l)
     + List.length (filter (Glyph_eqb FoodGlyph) l)
     + List.length (filter (Glyph_eqb Blank) l))%nat.
Proof.
  induction l as [ | g l IH]; [reflexivity | ].
  destruct g; cbn [filter Glyph_eqb List.length]; lia.
Qed.

Lemma glyph_at_cases (head0 : Cell) (body : list Cell) (food0 c : Cell) :
  ~ In head0 body -> ~ In food0 (head0 :: body) ->
  Glyph_eqb HeadGlyph (glyph_at head0 (head0 :: body) food0 (row c) (col c))
    = some_segment [head0] c
  /\ Glyph_eqb BodyGlyph (glyph_at head0 (head0 :: body) food0 (row c) (col c))
    = some_segment body c
  /\ Glyph_eqb FoodGlyph (glyph_at head0 (head0 :: body) food0 (row c) (col c))
    = some_segment [food0] c.
Proof.
  intros Hhead Hfood. unfold glyph_at.
  replace (mkCell (row c) (col c)) with c by now destruct c.
  destruct ((row head0 =? row c) && (col head0 =? col c)) eqn:Hh.
  - apply head_test_spec in Hh. subst c. cbn [Glyph_eqb]. repeat split.
    + symmetry. apply some_segment_In. now left.
    + symmetry. now apply some_segment_not_In.
    + symmetry. apply some_segment_not_In. intros [Heq | []].
      apply Hfood. now left.
  - assert (Hne : head0 <> c).
    { intros Heq. apply head_test_spec in Heq. congruence. }
    assert (Hnot : some_segment [head0] c = false).
    { apply some_segment_not_In. intros [Heq | []]. contradiction. }
    rewrite Hnot.
    assert (Hsnake : some_segment (head0 :: body) c = some_segment body c).
    { unfold some_segment. cbn [existsb].
      destruct (same_cell c head0) eqn:Hs; [ | reflexivity].
      apply same_cell_spec in Hs. contradiction. }
    rewrite Hsnake.
    destruct (some_segment body c) eqn:Hb.
    + cbn [Glyph_eqb]. repeat split.
      symmetry. apply some_segment_not_In. intros [Heq | []]. subst c.
      apply Hfood. right. now apply some_segment_In.
    + destruct ((row food0 =? row c) && (col food0 =? col c)) eqn:Hf.
      * apply head_test_spec in Hf. subst c. cbn [Glyph_eqb]. repeat split.
        symmetry. apply some_segment_In. now left.
      * cbn [Glyph_eqb]. repeat split.
        symmetry. apply some_segment_not_In. intros [Heq | []].
        apply head_test_spec in Heq. congruence.
Qed.

(** X20. During a game (with [Math.random] in [0, 1)) every redraw shows
    the whole state: the ten rows hold a hundred glyphs, of which exactly
    one is the head, one is the food, as many are body glyphs as the
    snake has segments behind its head, and all others are blank. *)
Theorem X20_grid_shows_head_body_and_food (host : Host) (w : World) :
  in_unit_interval (Math_random host) ->
  reachable host w ->
  let lines := fst (displayGrid (snake w) (food w)) in
  List.length (drawn_glyphs lines) = 100%nat
  /\ count_glyph HeadGlyph lines = 1%nat
  /\ count_glyph FoodGlyph lines = 1%nat
  /\ count_glyph BodyGlyph lines = (List.length (snake w) - 1)%nat
  /\ count_glyph Blank lines = (99 - List.length (snake w))%nat.
Proof.
  intros Hunit Hreach lines.
  pose proof (reachable_food_in_grid host w Hunit Hreach) as Hfood_grid.
  pose proof (reachable_snake_shape host w Hreach) as [Hnd Hgrid].
  pose proof (reachable_invariant host w Hreach) as [Hne [_ Hoff]].
  unfold lines, count_glyph.
  destruct (snake w) as [ | head0 body]; [contradiction | ].
  apply NoDup_cons_iff in Hnd as [Hhead Hbody].
  pose proof (Forall_inv Hgrid) as Hhead_grid. apply Forall_inv_tail in Hgrid.
  rewrite drawn_glyphs_displayGrid.
  assert (Hcount : forall (g : Glyph) (cells : list Cell),
             (forall c, Glyph_eqb g
                          (glyph_at head0 (head0 :: body) (food w) (row c) (col c))
                        = some_segment cells c) ->
             NoDup cells -> Forall in_grid cells ->
             List.length
               (filter (Glyph_eqb g)
                  (map (fun c => glyph_at head0 (head0 :: body) (food w) (row c) (col c))
                       grid_cells))
             = List.length cells).
  { intros g cells Hg Hnd' Hgrid'. rewrite count_mapped.
    rewrite (filter_ext _ (some_segment cells)) by exact Hg.
    now apply count_members. }
  assert (Hh : List.length
                 (filter (Glyph_eqb HeadGlyph)
                    (map (fun c => glyph_at head0 (head0 :: body) (food w) (row c) (col c))
                         grid_cells)) = 1%nat).
  { apply (Hcount HeadGlyph [head0]).
    - intros c. now apply glyph_at_cases.
    - constructor; [intros [] | constructor].
    - constructor; [assumption | constructor]. }
  assert (Hf : List.length
                 (filter (Glyph_eqb FoodGlyph)
                    (map (fun c => glyph_at head0 (head0 :: body) (food w) (row c) (col c))
                         grid_cells)) = 1%nat).
  { apply (Hcount FoodGlyph [food w]).
    - intros c. now apply glyph_at_cases.
    - constructor; [intros [] | constructor].
    - constructor; [assumption | constructor]. }
  assert (Hb : List.length
                 (filter (Glyph_eqb BodyGlyph)
                    (map (fun c => glyph_at head0 (head0 :: body) (food w) (row c) (col c))
                         grid_cells)) = List.length body).
  { apply (Hcount BodyGlyph body); try assumption.
    intros c. now apply glyph_at_cases. }
  pose proof (glyph_partition
                (map (fun c => glyph_at head0 (head0 :: body) (food w) (row c) (col c))
                     grid_cells)) as Hsum.
  rewrite length_map, grid_cells_length in Hsum.
  change (Z.to_nat (GRID_SIZE * GRID_SIZE)) with 100%nat in Hsum.
  rewrite length_map, grid_cells_length.
  change (Z.to_nat (GRID_SIZE * GRID_SIZE)) with 100%nat.
  cbn [List.length]. repeat split; lia.
Qed.

(** ** A game left alone *)

Lemma tick_keeps_direction (host : Host) (fuel : nat) (w w' : World) :
  tick host fuel w = Some w' -> direction w' = direction w.
Proof.
  intros Htick.
  destruct (snake w) as [ | head0 body] eqn:Hsnake.
  - unfold tick in Htick. rewrite Hsnake in Htick.
    assert (Hw' : w' = redraw w) by congruence.
    rewrite Hw'. now destruct (redraw_keeps w) as [_ [_ [_ [Hd _]]]].
  - assert (Hne : snake w <> []) by (rewrite Hsnake; discriminate).
    destruct (tick_result host fuel w w' Hne Htick)
      as [-> | [snake' [food' [points' [calls' [_ ->]]]]]]; [reflexivity | ].
    now destruct (redraw_keeps (moved w snake' food' points' calls'))
      as [_ [_ [_ [Hd _]]]].
Qed.

(** A tick that does not end the game brings the head one cell closer to
    the wall ahead. *)
Lemma tick_approaches_wall (host : Host) (fuel : nat) (w w' : World) :
  snake w <> [] ->
  tick host fuel w = Some w' ->
  gameLoop w = true ->
  gameLoop w' = false
  \/ (0 <= head_to_wall w' /\ head_to_wall w' = head_to_wall w - 1).
Proof.
  intros Hne Htick Hloop.
  pose proof (tick_keeps_direction host fuel w w' Htick) as Hdir.
  destruct (snake w) as [ | head0 body] eqn:Hsnake; [contradiction | ].
  assert (Hstep : forall tail : list Cell,
             isCollision (next_head head0 (direction w)) body = false ->
             snake w' = next_head head0 (direction w) :: tail ->
             0 <= head_to_wall w' /\ head_to_wall w' = head_to_wall w - 1).
  { intros tail Hclear Hs. apply isCollision_clear in Hclear as [[Hrow Hcol] _].
    unfold head_to_wall. rewrite Hs, Hsnake, Hdir.
    destruct head0 as [r c]. unfold next_head, to_wall, GRID_SIZE in *.
    destruct (direction w); cbn [row col DIRECTIONS] in *; lia. }
  destruct (tick_inv host fuel w w' head0 body Hsnake Htick)
    as [[_ ->] | [[Hclear [_ [Hs _]]] | [Hclear [_ [Hs _]]]]].
  - left. reflexivity.
  - right. now apply (Hstep (head0 :: body)).
  - right. now apply (Hstep (removelast (head0 :: body))).
Qed.

(** Once the interval is cleared no tick comes. *)
Lemma ticks_idle (host : Host) (fuel : nat) (w : World) (n : nat) :
  gameLoop w = false -> run host fuel w (repeat Tick n) = Some w.
Proof.
  intros Hidle. induction n as [ | n IH]; [reflexivity | ].
  cbn [repeat run]. unfold dispatch. rewrite Hidle.
  destruct (halted w); exact IH.
Qed.

Lemma ticks_run_into_wall (host : Host) (fuel : nat) :
  forall (n : nat) (w w' : World),
    reachable host w ->
    head_to_wall w < Z.of_nat n ->
    run host fuel w (repeat Tick n) = Some w' ->
    gameLoop w' = false.
Proof.
  induction n as [ | n IH]; intros w w' Hreach Hroom Hrun.
  - exfalso.
    pose proof (reachable_snake_shape host w Hreach) as [_ Hgrid].
    unfold head_to_wall in Hroom.
    destruct (snake w) as [ | [r c] body]; [simpl in Hroom; lia | ].
    apply Forall_inv in Hgrid. destruct Hgrid as [Hrow Hcol].
    unfold to_wall, GRID_SIZE in *. cbn [row col] in *.
    destruct (direction w); lia.
  - destruct (gameLoop w) eqn:Hloop.
    + pose proof (reachable_process_invariant host w Hreach) as [_ [_ [Hrunning _]]].
      destruct (Hrunning Hloop) as [Hrest _].
      pose proof (reachable_invariant host w Hreach) as [Hne _].
      cbn [repeat run] in Hrun.
      destruct (dispatch host fuel w Tick) as [w1 | ] eqn:Hstep; [ | discriminate].
      assert (Hreach1 : reachable host w1)
        by now apply reach_event with (fuel := fuel) (w := w) (ev := Tick).
      unfold dispatch in Hstep. rewrite Hrest, Hloop in Hstep.
      destruct (tick_approaches_wall host fuel w w1 Hne Hstep Hloop)
        as [Hover | [_ Hcloser]].
      * rewrite (ticks_idle host fuel w1 n Hover) in Hrun.
        now injection Hrun as <-.
      * apply (IH w1 w' Hreach1); [lia | exact Hrun].
    + rewrite (ticks_idle host fuel w (S n) Hloop) in Hrun.
      now injection Hrun as <-.
Qed.

(** X21. A game nobody steers is over within ten ticks: the head advances
    one cell per tick in the direction it has, so from any moment of a
    game ten consecutive ticks without a keypress end in game over (or in
    a [generateFood] that is still looping). *)
Theorem X21_unattended_game_ends_within_ten_ticks (host : Host) (fuel : nat) (w w' : World) :
  reachable host w ->
  run host fuel w (repeat Tick 10) = Some w' ->
  gameLoop w' = false.
Proof.
  intros Hreach Hrun.
  apply (ticks_run_into_wall host fuel 10 w w' Hreach); [ | exact Hrun].
  pose proof (reachable_snake_shape host w Hreach) as [_ Hgrid].
  pose proof (reachable_invariant host w Hreach) as [Hne _].
  unfold head_to_wall.
  destruct (snake w) as [ | [r c] body]; [contradiction | ].
  apply Forall_inv in Hgrid. destruct Hgrid as [Hrow Hcol].
  unfold to_wall, GRID_SIZE in *. cbn [row col] in *.
  destruct (direction w); lia.
Qed.

(** ** The further properties on the reference host *)

(** The game in which the snake has just eaten at (0, 0). *)
Lemma fed_world_reachable :
  exists w : World,
    run reference_host 5 started_world to_the_food = Some w
    /\ reachable reference_host w
    /\ snake w = [mkCell 0 0; mkCell 0 1].
Proof.
  assert (Hrun : exists w : World,
             run reference_host 5 started_world to_the_food = Some w
             /\ snake w = [mkCell 0 0; mkCell 0 1]).
  { vm_compute. eexists. split; reflexivity. }
  destruct Hrun as [w [Hrun Hsnake]].
  exists w. repeat split; try assumption.
  exact (run_reachable reference_host 5 to_the_food started_world w
           started_world_reachable Hrun).
Qed.


Lemma X2_witness :
  exists w : World,
    snake w = [mkCell 0 0; mkCell 0 1] /\ direction w = lastDirection w.
Proof.
  destruct fed_world_reachable as [w [_ [Hreach Hsnake]]].
  exists w. split; [exact Hsnake | ].
  exact (X2_direction_equals_lastDirection reference_host w Hreach).
Defined.

Lemma X3_witness :
  exists w : World,
    snake w = [mkCell 0 0; mkCell 0 1] /\ NoDup (snake w).
Proof.
  destruct fed_world_reachable as [w [_ [Hreach Hsnake]]].
  exists w. split; [exact Hsnake | ].
  exact (proj1 (X3_snake_stays_distinct_on_grid reference_host w Hreach)).
Defined.

Lemma X4_witness :
  exists w : World,
    snake w = [mkCell 0 0; mkCell 0 1]
    /\ 0 <= row (food w) < GRID_SIZE
    /\ points w <= 98.
Proof.
  destruct fed_world_reachable as [w [_ [Hreach Hsnake]]].
  exists w. split; [exact Hsnake | ].
  destruct (X4_food_on_grid_and_score_bounded reference_host w
              reference_random_in_unit_interval Hreach)
    as [[Hrow _] [_ Hpoints]].
  split; assumption.
Defined.

Lemma X5_witness : tick reference_host 1000 crowded_world = None.
Proof.
  refine (X5_eating_the_last_free_cell_never_returns reference_host crowded_world
            (mkCell 9 1) (tl (snake crowded_world)) _ _ _ _ _ _ _ 1000%nat).
  - exact reference_random_in_unit_interval.
  - vm_compute. reflexivity.
  - apply all_distinct_NoDup. vm_compute. reflexivity.
  - assert (Hall : forallb (some_segment grid_cells) (snake crowded_world) = true)
      by (vm_compute; reflexivity).
    rewrite forallb_forall in Hall. intros segment Hin.
    now apply In_grid_cells, some_segment_In, Hall.
  - vm_compute. reflexivity.
  - vm_compute. reflexivity.
  - vm_compute. reflexivity.
Defined.

Lemma X7_witness :
  exists w' : World,
    run reference_host 1 straight_world [Keypress arrow_up; Keypress letter_a; Tick]
      = Some w'
    /\ direction w' = left
    /\ gameLoop w' = false.
Proof.
  destruct (X7_two_quick_turns_reverse_the_snake reference_host 1 straight_world
              (mkCell 5 6) (mkCell 5 5) [] right up arrow_up letter_a
              eq_refl eq_refl eq_refl eq_refl eq_refl eq_refl eq_refl)
    as [w' [Hrun [Hdir [_ [Hloop _]]]]];
    try discriminate; try reflexivity.
  exists w'. repeat split; assumption.
Defined.

Lemma X8_witness :
  exists w' : World,
    dispatch reference_host 1 started_world (Keypress letter_q) = Some w'
    /\ exited w' = true
    /\ saved w' = None.
Proof.
  destruct (X8_quitting_records_no_score reference_host 1 started_world letter_q
              eq_refl eq_refl)
    as [w' [Hstep [_ [Hexit [Hsaved _]]]]].
  exists w'. repeat split; assumption.
Defined.

Lemma full_table_loaded :
  loadHighScores reference_host (Some full_file)
  = Returns (JArray (map entry_to_json full_table)).
Proof.
  vm_compute. reflexivity.
Qed.

Lemma full_table_descending : descending score_key (map entry_to_json full_table).
Proof.
  unfold descending, full_table. repeat constructor; cbn; lia.
Qed.

Lemma X9_witness :
  exists table : list JSON,
    saveHighScore reference_host (Some full_file) 7 "Gus"
      = Returns (Some (Reference.JSON_stringify (JArray table)))
    /\ nth_error table 2
       = Some (entry_to_json (mkEntry "Gus" 7 "2024-01-01T00:00:00.000Z")).
Proof.
  destruct (X9_new_entry_ranks_behind_its_equals reference_host (Some full_file)
              (map entry_to_json full_table) 7 "Gus" full_table_loaded eq_refl)
    as [table [Hsave [_ Hrank]]].
  exists table. split; [exact Hsave | ].
  apply Hrank. cbn. lia.
Defined.

Lemma X10_witness :
  saveHighScore reference_host (Some full_file) 2 "Gus" = Returns (Some full_file).
Proof.
  apply (X10_sorted_table_keeps_its_order reference_host (Some full_file)
           (map entry_to_json full_table) 2 "Gus"
           full_table_loaded eq_refl full_table_descending).
  - reflexivity.
  - intros v Hv. cbn in Hv.
    repeat (destruct Hv as [<- | Hv]; [cbn; lia | ]). destruct Hv.
Defined.

Lemma X11_witness :
  saveHighScore reference_host (Some "{ name: broken"%string) 7 "Ann"
  = Returns (Some (Reference.JSON_stringify
      (JArray [entry_to_json (mkEntry "Ann" 7 "2024-01-01T00:00:00.000Z")]))).
Proof.
  apply (X11_save_replaces_an_unreadable_file reference_host
           (Some "{ name: broken"%string) 7 "Ann").
  right. eexists. split; reflexivity.
Defined.

Lemma X12_witness :
  saveHighScore reference_host (Some "{}"%string) 7 "Ann" = Throws TypeError
  /\ exists w' : World,
       dispatch reference_host 1 spoiled_world Answered = Some w'
       /\ uncaught w' = Some TypeError.
Proof.
  destruct (X12_save_on_a_non_array_throws reference_host "{}"%string (JObject []))
    as [Hsave Hanswered].
  - reflexivity.
  - intros items. discriminate.
  - split; [apply Hsave | ].
    destruct (Hanswered 1%nat spoiled_world eq_refl eq_refl eq_refl eq_refl)
      as [w' [Hstep [_ [Huncaught _]]]].
    exists w'. split; assumption.
Defined.

Lemma X13_witness :
  exists file : string,
    saveHighScore reference_host (Some full_file) 6 "Gus" = Returns (Some file)
    /\ loadHighScores reference_host (Some file)
       = Returns (JArray (push_sort_splice score_key (map entry_to_json full_table)
                            (entry_to_json
                               (mkEntry "Gus" 6 "2024-01-01T00:00:00.000Z")))).
Proof.
  destruct (X13_save_then_load reference_host (Some full_file)
              (map entry_to_json full_table) 6 "Gus")
    as [file [Hsave [Hload _]]].
  - vm_compute. reflexivity.
  - reflexivity.
  - vm_compute. reflexivity.
  - exists file. split; assumption.
Defined.

Lemma X14_witness :
  showHighScores reference_host (resetHighScores reference_host (Some full_file))
  = ([NoScoresYet], None).
Proof.
  apply (X14_reset_empties_the_table reference_host (Some full_file)).
  vm_compute. reflexivity.
Defined.

Lemma X15_witness :
  showHighScores reference_host (Some "{ name: broken"%string) = ([NoScoresYet], None).
Proof.
  apply (X15_show_without_scores reference_host (Some "{ name: broken"%string)).
  right. eexists. split; [reflexivity | ]. left. reflexivity.
Defined.

Lemma X16_witness :
  exists lines : list StoreLine,
    showHighScores reference_host (Some crowded_file) = (ScoresHeader :: lines, None)
    /\ shown_ranks lines = [1; 2; 3; 4; 5; 6]
    /\ shown_scores lines
       = map (fun n => Some (JNumber n)) [1; 5; 3; 9; 2; 7].
Proof.
  destruct (X16_show_lists_the_file_in_order reference_host crowded_file crowded_table)
    as [lines [Hshow [Hranks Hscores]]].
  - vm_compute. reflexivity.
  - discriminate.
  - reflexivity.
  - exists lines. repeat split; assumption.
Defined.

Lemma X17_witness :
  exists lines : list StoreLine,
    showHighScores reference_host (Some holed_file)
      = (ScoresHeader :: lines, Some TypeError)
    /\ shown_scores lines = [Some (JNumber 4)].
Proof.
  destruct (X17_show_stops_at_the_first_bad_entry reference_host holed_file
              [entry_to_json (mkEntry "Ann" 4 "2024-01-01T00:00:00.000Z")]
              [JNumber 3] JNull)
    as [lines [Hshow [Hscores _]]].
  - vm_compute. reflexivity.
  - reflexivity.
  - reflexivity.
  - exists lines. split; assumption.
Defined.

Lemma X18_witness :
  showHighScores reference_host (Some "{}"%string) = ([NoScoresYet], None).
Proof.
  apply (X18_show_on_other_values reference_host "{}"%string (JObject [])).
  - reflexivity.
  - intros items. discriminate.
Defined.

Lemma X19_witness :
  exists (file : string) (lines : list StoreLine),
    saveHighScore reference_host (Some full_file) 6 "Gus" = Returns (Some file)
    /\ showHighScores reference_host (Some file) = (ScoresHeader :: lines, None)
    /\ shown_scores lines = map (fun n => Some (JNumber n)) [9; 7; 6; 5; 3].
Proof.
  destruct (X19_save_then_show reference_host (Some full_file)
              (map entry_to_json full_table) 6 "Gus")
    as [file [lines [Hsave [Hshow [_ [Hscores _]]]]]].
  - vm_compute. reflexivity.
  - reflexivity.
  - reflexivity.
  - vm_compute. reflexivity.
  - exists file, lines. repeat split; assumption.
Defined.

Lemma X20_witness :
  exists w : World,
    snake w = [mkCell 0 0; mkCell 0 1]
    /\ count_glyph HeadGlyph (fst (displayGrid (snake w) (food w))) = 1%nat
    /\ count_glyph FoodGlyph (fst (displayGrid (snake w) (food w))) = 1%nat.
Proof.
  destruct fed_world_reachable as [w [_ [Hreach Hsnake]]].
  exists w. split; [exact Hsnake | ].
  destruct (X20_grid_shows_head_body_and_food reference_host w
              reference_random_in_unit_interval Hreach)
    as [_ [Hhead [Hfood _]]].
  split; assumption.
Defined.

Lemma X21_witness :
  exists w' : World,
    run reference_host 1 started_world (repeat Tick 10) = Some w'
    /\ gameLoop w' = false.
Proof.
  destruct (run reference_host 1 started_world (repeat Tick 10)) as [w' | ] eqn:Hrun.
  - exists w'. split; [reflexivity | ].
    exact (X21_unattended_game_ends_within_ten_ticks reference_host 1 started_world w'
             started_world_reachable Hrun).
  - vm_compute in Hrun. discriminate.
Defined.
